(** * la_nation: phrase detection, source acquisition, capture throttling
      and transcript persistence

    A shallow embedding of the stateful core of the [la_nation] package:

    - [phrase_detector.py]   : [PhraseDetector]
    - [enhanced_youtube_stream.py] : [EnhancedYouTubeStream.setup]
    - [screenshot_capturer.py] : [ScreenshotCapturer.capture_screenshot]
    - [main.py]              : the extraction cycle of [YouTubeLiveProcessor]
      and its transcript writers.

    Python objects become records, methods become functions that take the
    record and return the result together with the updated record.  What a
    method reads from the outside world (the clock, the transcription
    backend, the outcome of a download or of a write to disk) is an
    explicit argument.

    Text.  A Python [str] is modelled by a Rocq [string], one character
    for one code point.  The case mapping and the character classes
    ([lower], [is_space], [is_alnum]) are those of Python on ASCII text
    ([isascii]); a statement that rests on what they do to a character
    has the ASCII text as a hypothesis.  String literals of the source
    that contain other characters occur only in file contents and log
    lines and are kept as their UTF-8 bytes.

    Files.  A write that the source guards with [try]/[except] is given
    its outcome: the text is written, [open] raises, or a write raises
    part of the way; the exception is logged and goes no further. *)

From stdpp Require Import base strings list gmap.
From Stdlib Require Import Ascii String List Bool Arith Lia ZArith QArith.
From Stdlib Require Import DecimalString Floats Uint63.
Import ListNotations.

#[local] Open Scope string_scope.
#[local] Open Scope list_scope.
#[local] Open Scope nat_scope.

(** ** Python string primitives *)

Module PyStr.

(** [s.isascii()]: every code point is below 128. *)
Fixpoint isascii (s : string) : bool :=
  match s with
  | EmptyString => true
  | String c s' => (nat_of_ascii c <? 128) && isascii s'
  end.

(** [c.isspace()] for an ASCII code point: TAB, LF, VT, FF, CR, the four
    separators FS, GS, RS, US and the space. *)
Definition is_space (c : ascii) : bool :=
  let n := nat_of_ascii c in
  ((9 <=? n) && (n <=? 13)) || ((28 <=? n) && (n <=? 32)).

(** [c.lower()] for an ASCII code point. *)
Definition lower_char (c : ascii) : ascii :=
  let n := nat_of_ascii c in
  if (65 <=? n) && (n <=? 90) then ascii_of_nat (n + 32) else c.

(** [s.lower()] *)
Fixpoint lower (s : string) : string :=
  match s with
  | EmptyString => EmptyString
  | String c s' => String (lower_char c) (lower s')
  end.

(** [s.split()] with no argument: maximal runs of non-space characters,
    in order; no empty word is ever produced.  [cur] is the word being
    read, reversed. *)
Fixpoint split_from (cur : list ascii) (s : string) : list string :=
  match s with
  | EmptyString =>
      match cur with
      | [] => []
      | _ :: _ => [string_of_list_ascii (rev cur)]
      end
  | String c s' =>
      if is_space c then
        match cur with
        | [] => split_from [] s'
        | _ :: _ => string_of_list_ascii (rev cur) :: split_from [] s'
        end
      else split_from (c :: cur) s'
  end.

Definition split (s : string) : list string := split_from [] s.

(** [needle in hay] on strings: [needle] occurs as a contiguous run. *)
Fixpoint contains (needle hay : string) : bool :=
  String.prefix needle hay
  || match hay with
     | EmptyString => false
     | String _ hay' => contains needle hay'
     end.

(** [sep.join(parts)] *)
Definition join (sep : string) (parts : list string) : string :=
  String.concat sep parts.

(** [x in xs] on a list of strings. *)
Definition mem (x : string) (xs : list string) : bool :=
  existsb (String.eqb x) xs.

(** The truth value of a string: non-empty. *)
Definition truthy (s : string) : bool :=
  match s with EmptyString => false | String _ _ => true end.

(** [str(n)] and [f"{n:03d}"] for a natural number. *)
Definition of_nat (n : nat) : string :=
  NilZero.string_of_uint (Nat.to_uint n).

Fixpoint zeros (k : nat) : string :=
  match k with O => "" | S k' => String "0" (zeros k') end.

Definition of_nat_03d (n : nat) : string :=
  let d := of_nat n in zeros (3 - String.length d) ++ d.

(** [c * k] for a one-character string [c]. *)
Fixpoint repeat_char (c : ascii) (k : nat) : string :=
  match k with O => "" | S k' => String c (repeat_char c k') end.

(** [s[:n]] *)
Definition take (n : nat) (s : string) : string := String.substring 0 n s.

(** [s.lstrip()], [s.rstrip()] and [s.strip()] *)
Fixpoint lstrip (s : string) : string :=
  match s with
  | EmptyString => EmptyString
  | String c s' => if is_space c then lstrip s' else s
  end.

Fixpoint rstrip (s : string) : string :=
  match s with
  | EmptyString => EmptyString
  | String c s' =>
      match rstrip s' with
      | EmptyString => if is_space c then EmptyString else String c ""
      | r => String c r
      end
  end.

Definition strip (s : string) : string := rstrip (lstrip s).

(** [os.path.join(a, b)] on POSIX paths. *)
Definition path_join (a b : string) : string :=
  if String.prefix "/" b then b
  else if negb (truthy a) then b
  else if String.eqb (String.substring (String.length a - 1) 1 a) "/"
       then a ++ b
       else a ++ "/" ++ b.

(** The line feed. *)
Definition nl : string := String (ascii_of_nat 10) "".

End PyStr.

(** ** phrase_detector.py *)

Module PhraseDetector.
Import PyStr.

(** The attributes of a [PhraseDetector].  [transcript_history] is the
    [deque(maxlen=context_window)], oldest chunk first. *)
Record t : Type := mk {
  target_phrases : list string;
  context_window : nat;
  transcript_history : list string;
  detected_phrases : list string
}.

(** [__init__]: [target_phrases or []] is the list itself. *)
Definition init (phrases : list string) (window : nat) : t :=
  {| target_phrases := phrases;
     context_window := window;
     transcript_history := [];
     detected_phrases := [] |}.

(** [deque.append] on a deque with [maxlen]: the item is added on the
    right and, when the deque is then over its bound, the leftmost item is
    dropped. *)
Definition deque_append (maxlen : nat) (d : list string) (x : string)
  : list string :=
  let d' := d ++ [x] in
  if maxlen <? List.length d' then tl d' else d'.

Definition add_target_phrase (self : t) (phrase : string) : t :=
  if truthy phrase && negb (mem phrase (target_phrases self)) then
    {| target_phrases := target_phrases self ++ [phrase];
       context_window := context_window self;
       transcript_history := transcript_history self;
       detected_phrases := detected_phrases self |}
  else self.

(** [list.remove(x)]: drops the first occurrence. *)
Fixpoint list_remove (x : string) (l : list string) : list string :=
  match l with
  | [] => []
  | y :: l' => if String.eqb x y then l' else y :: list_remove x l'
  end.

Definition remove_target_phrase (self : t) (phrase : string) : t :=
  if mem phrase (target_phrases self) then
    {| target_phrases := list_remove phrase (target_phrases self);
       context_window := context_window self;
       transcript_history := transcript_history self;
       detected_phrases := detected_phrases self |}
  else self.

(** [sum(1 for word in phrase_words if word in text_words)] *)
Definition count_matches (phrase_words text_words : list string) : nat :=
  List.length (List.filter (fun word => mem word text_words) phrase_words).

Definition match_threshold : Q := 75 # 100.

(** [matches / total >= match_threshold].  The quotient of two Python
    integers is their exact quotient rounded to a double; 0.75 is a double,
    and below 2^52 words the rounded quotient is at least 0.75 exactly when
    the exact one is, so the comparison is made in [Q]. *)
Definition reaches_threshold (matches total : nat) : bool :=
  Qle_bool match_threshold
    (inject_Z (Z.of_nat matches) / inject_Z (Z.of_nat total)).

(** The same test on doubles, the way the interpreter evaluates it for
    integers below 2^53. *)
Definition double_of_nat (n : nat) : float :=
  PrimFloat.of_uint63 (Uint63.of_Z (Z.of_nat n)).

Definition reaches_threshold_double (matches total : nat) : bool :=
  PrimFloat.leb 0.75%float
    (PrimFloat.div (double_of_nat matches) (double_of_nat total)).

(** The two tests agree on every phrase of 3 to [bound] words. *)
Definition tests_agree_upto (bound : nat) : bool :=
  forallb
    (fun total =>
       forallb
         (fun matches =>
            Bool.eqb (reaches_threshold_double matches total)
                     (reaches_threshold matches total))
         (seq 0 (S total)))
    (seq 3 (bound - 2)).

(** [_detect_phrase] *)
Definition _detect_phrase (text phrase : string) : bool :=
  if contains phrase text then true
  else
    let phrase_words := split phrase in
    let text_words := split text in
    if List.length phrase_words <=? 2 then
      forallb (fun word => mem word text_words) phrase_words
    else
      let matches := count_matches phrase_words text_words in
      reaches_threshold matches (List.length phrase_words).

(** [" ".join(self.transcript_history).lower()] *)
Definition combined_text (history : list string) : string :=
  lower (join " " history).

(** One turn of the loop over [target_phrases]: the accumulator is
    [self.detected_phrases] and [new_detections]. *)
Definition check_phrase (text : string)
    (acc : list string * list string) (phrase : string)
  : list string * list string :=
  let '(detected, new_detections) := acc in
  if _detect_phrase text (lower phrase) then
    if negb (mem phrase detected) then
      (detected ++ [phrase], new_detections ++ [phrase])
    else acc
  else acc.

Definition check_phrases (text : string) (phrases detected : list string)
  : list string * list string :=
  fold_left (check_phrase text) phrases (detected, []).

(** [process_transcript]: the returned list and the detector after the
    call. *)
Definition process_transcript (self : t) (transcript_chunk : string)
  : list string * t :=
  if negb (truthy transcript_chunk)
     || match target_phrases self with [] => true | _ => false end
  then ([], self)
  else
    let history :=
      deque_append (context_window self) (transcript_history self)
                   transcript_chunk in
    let text := combined_text history in
    let '(detected, new_detections) :=
      check_phrases text (target_phrases self) (detected_phrases self) in
    (new_detections,
     {| target_phrases := target_phrases self;
        context_window := context_window self;
        transcript_history := history;
        detected_phrases := detected |}).

(** The window once a chunk has been pushed, and the text the phrases
    are then matched against. *)
Definition window_after (self : t) (transcript_chunk : string)
  : list string :=
  deque_append (context_window self) (transcript_history self)
               transcript_chunk.

Definition window_text (self : t) (transcript_chunk : string) : string :=
  combined_text (window_after self transcript_chunk).


Definition reset (self : t) : t :=
  {| target_phrases := target_phrases self;
     context_window := context_window self;
     transcript_history := [];
     detected_phrases := [] |}.

Definition get_detected_phrases (self : t) : list string :=
  detected_phrases self.

(** A run of the detector without [reset]: calls of the three methods
    that touch the phrase list or the window. *)
Inductive call : Type :=
| Process (transcript_chunk : string)
| AddPhrase (phrase : string)
| RemovePhrase (phrase : string).

Definition do_call (self : t) (c : call) : list string * t :=
  match c with
  | Process chunk => process_transcript self chunk
  | AddPhrase p => ([], add_target_phrase self p)
  | RemovePhrase p => ([], remove_target_phrase self p)
  end.

(** All detections returned over a sequence of calls, in order, and the
    detector at the end. *)
Fixpoint run (self : t) (cs : list call) : list string * t :=
  match cs with
  | [] => ([], self)
  | c :: cs' =>
      let '(out, self') := do_call self c in
      let '(outs, self'') := run self' cs' in
      (out ++ outs, self'')
  end.

End PhraseDetector.

(** ** enhanced_youtube_stream.py: the acquisition chain *)

Module EnhancedYouTubeStream.

(** What a strategy writes while it resolves the source. *)
Record source : Type := mk_source {
  stream_url : option string;
  is_live : bool;
  title : string;
  stream_quality : option string
}.

(** The attributes of an [EnhancedYouTubeStream] that [setup] touches, and
    the log, oldest line first.  The log keeps the lines that [setup] and
    the three strategy methods write around a strategy (its start, its
    exception, the verdict of [setup]); what a strategy logs in between is
    left out. *)
Record t : Type := mk {
  url : string;
  found : source;
  successful_strategy : option string;
  log : list string
}.

(** [__init__] *)
Definition init (u : string) : t :=
  {| url := u;
     found := {| stream_url := None; is_live := false; title := "";
                 stream_quality := None |};
     successful_strategy := None;
     log := [] |}.

(** How the body of a strategy (the code inside its [try]) ends: with
    [return True], with [return False], or with an [Exception] and its
    message. *)
Inductive outcome : Type :=
| ReturnTrue
| ReturnFalse
| Raise (e : string).

(** The body of a strategy talks to an external tool (yt-dlp, the
    streamlink process, an HTTP request); what it does to the source
    fields and how it ends is the tool's answer. *)
Definition strategy_body : Type := string -> source -> outcome * source.

Definition logged (line : string) (self : t) : t :=
  {| url := url self; found := found self;
     successful_strategy := successful_strategy self;
     log := log self ++ [line] |}.

Definition with_found (f : source) (self : t) : t :=
  {| url := url self; found := f;
     successful_strategy := successful_strategy self;
     log := log self |}.

Definition with_strategy (name : string) (self : t) : t :=
  {| url := url self; found := found self;
     successful_strategy := Some name;
     log := log self |}.

(** The shape shared by [_setup_with_ytdlp], [_setup_with_streamlink] and
    [_setup_with_direct_extraction]:
    [try: log "Trying ..."; body  except Exception as e: log; return False] *)
Definition attempt (trying failed : string) (body : strategy_body)
    (self : t) : bool * t :=
  let self := logged trying self in
  let '(o, f) := body (url self) (found self) in
  let self := with_found f self in
  match o with
  | ReturnTrue => (true, self)
  | ReturnFalse => (false, self)
  | Raise e => (false, logged (failed ++ e)%string self)
  end.

Definition trying_ytdlp : string := "🧪 Trying yt-dlp strategy...".
Definition trying_streamlink : string := "🧪 Trying streamlink strategy...".
Definition trying_direct : string :=
  "🧪 Trying direct extraction strategy...".

Section Chain.
(** The three tools, in the order [setup] consults them. *)
Variables ytdlp streamlink direct : strategy_body.

Definition _setup_with_ytdlp : t -> bool * t :=
  attempt trying_ytdlp "❌ yt-dlp strategy failed: " ytdlp.

Definition _setup_with_streamlink : t -> bool * t :=
  attempt trying_streamlink "❌ Streamlink strategy failed: " streamlink.

Definition _setup_with_direct_extraction : t -> bool * t :=
  attempt trying_direct "❌ Direct extraction failed: " direct.

Definition setup (self : t) : bool * t :=
  let '(ok, self) := _setup_with_ytdlp self in
  if ok then
    (true, logged "✅ Successfully set up with yt-dlp"
             (with_strategy "yt-dlp" self))
  else
  let '(ok, self) := _setup_with_streamlink self in
  if ok then
    (true, logged "✅ Successfully set up with streamlink"
             (with_strategy "streamlink" self))
  else
  let '(ok, self) := _setup_with_direct_extraction self in
  if ok then
    (true, logged "✅ Successfully set up with direct extraction"
             (with_strategy "direct_extraction" self))
  else
    (false, logged "❌ All enhanced setup strategies failed" self).
End Chain.

(** A log line that announces the start of a strategy. *)
Definition is_trying (line : string) : bool :=
  PyStr.mem line [trying_ytdlp; trying_streamlink; trying_direct].

(** The strategies started between two states of the stream, in order,
    read off the lines the log has gained. *)
Definition started (before after : t) : list string :=
  List.filter is_trying (skipn (List.length (log before)) (log after)).

Definition succeeded (o : outcome) : bool :=
  match o with ReturnTrue => true | _ => false end.

End EnhancedYouTubeStream.

(** ** screenshot_capturer.py *)

Module ScreenshotCapturer.

(** [x < y] on rationals.  [time.time()] is a double; the difference of
    two readings of one run is exact, and so is the difference with the
    initial 0, so the clock is read as a rational. *)
Definition Qlt_bool (x y : Q) : bool := negb (Qle_bool y x).

Section Capturer.
(** A video frame (an OpenCV array or a PIL image). *)
Variable frame : Type.

(** The attributes of a [ScreenshotCapturer], and the image files under
    [output_dir]. *)
Record t : Type := mk {
  output_dir : string;
  last_capture_time : Q;
  min_capture_interval : Q;
  saved : gmap string frame
}.

(** [__init__] *)
Definition init (dir : string) : t :=
  {| output_dir := dir;
     last_capture_time := 0;
     min_capture_interval := 2;
     saved := ∅ |}.

(** [c.isalnum()] for an ASCII code point. *)
Definition is_alnum (c : ascii) : bool :=
  let n := nat_of_ascii c in
  ((48 <=? n) && (n <=? 57)) || ((65 <=? n) && (n <=? 90))
  || ((97 <=? n) && (n <=? 122)).

(** ["".join(c if c.isalnum() else "_" for c in phrase)] *)
Fixpoint clean (phrase : string) : string :=
  match phrase with
  | EmptyString => EmptyString
  | String c p => String (if is_alnum c then c else "_"%char) (clean p)
  end.

Definition phrase_tag (phrase : option string) : string :=
  match phrase with
  | Some p =>
      if PyStr.truthy p then PyStr.take 50 ("_" ++ clean p)%string else ""
  | None => ""
  end.

(** How writing the image ends: the file is written; nothing is written
    and nothing is raised ([cv2.imwrite] reports a failure by returning
    [False], which [capture_screenshot] does not look at); or the write
    raises. *)
Inductive image_write : Type :=
| ImageWritten
| ImageNotWritten
| ImageWriteRaises.

(** [capture_screenshot].  [current_time] is what [time.time()] gives,
    [timestamp] what [datetime.now().strftime("%Y%m%d_%H%M%S")] gives,
    and [write] how writing the image ends.  The result is the returned
    path ([None] when the capture was skipped or raised) and the capturer
    afterwards. *)
Definition capture_screenshot (self : t) (current_time : Q)
    (timestamp : string) (write : image_write)
    (fr : frame) (phrase : option string) (throttle : bool)
  : option string * t :=
  if throttle
     && Qlt_bool (current_time - last_capture_time self)
                 (min_capture_interval self)
  then (None, self)
  else
    let self :=
      {| output_dir := output_dir self;
         last_capture_time := current_time;
         min_capture_interval := min_capture_interval self;
         saved := saved self |} in
    let filename :=
      ("screenshot_" ++ timestamp ++ phrase_tag phrase ++ ".jpg")%string
    in
    let filepath := PyStr.path_join (output_dir self) filename in
    match write with
    | ImageWriteRaises => (None, self)
    | ImageNotWritten => (Some filepath, self)
    | ImageWritten =>
        (Some filepath,
         {| output_dir := output_dir self;
            last_capture_time := last_capture_time self;
            min_capture_interval := min_capture_interval self;
            saved := <[filepath := fr]> (saved self) |})
    end.

(** A request made with [throttle=True], the default. *)
Record request : Type := mk_request {
  at_time : Q;
  stamp : string;
  outcome : image_write;
  image : frame;
  for_phrase : option string
}.

Definition throttled (self : t) (r : request) : option string * t :=
  capture_screenshot self (at_time r) (stamp r) (outcome r) (image r)
                     (for_phrase r) true.

(** Whether a throttled request made now would pass the interval
    check. *)
Definition passes (self : t) (current_time : Q) : bool :=
  negb (Qlt_bool (current_time - last_capture_time self)
                 (min_capture_interval self)).

(** A sequence of throttled requests: the capturer at the end and the
    clock readings of the requests that passed the check, in order. *)
Fixpoint serve (self : t) (rs : list request) : list Q * t :=
  match rs with
  | [] => ([], self)
  | r :: rs' =>
      let went := passes self (at_time r) in
      let '(_, self') := throttled self r in
      let '(ts, self'') := serve self' rs' in
      (if went then at_time r :: ts else ts, self'')
  end.

(** Clock readings that are each at least [gap] after the one before,
    the first of them after [prev]. *)
Fixpoint spaced (gap prev : Q) (ts : list Q) : Prop :=
  match ts with
  | [] => True
  | t :: ts' => (gap <= t - prev)%Q /\ spaced gap t ts'
  end.
End Capturer.

Arguments mk {frame}.
Arguments output_dir {frame}.
Arguments last_capture_time {frame}.
Arguments min_capture_interval {frame}.
Arguments saved {frame}.
Arguments capture_screenshot {frame}.
Arguments mk_request {frame}.
Arguments at_time {frame}.
Arguments stamp {frame}.
Arguments outcome {frame}.
Arguments image {frame}.
Arguments for_phrase {frame}.
Arguments init {frame}.
Arguments throttled {frame}.
Arguments passes {frame}.
Arguments serve {frame}.

End ScreenshotCapturer.

(** ** main.py: the extraction cycle and the transcript writers *)

Module YouTubeLiveProcessor.
Import PyStr.
#[local] Open Scope string_scope.

(** The attributes of a [YouTubeLiveProcessor] that the cycle and the
    writers touch, and the text files on disk, by path. *)
Record t : Type := mk {
  url : string;
  target_phrases : list string;
  output_dir : string;
  transcripts_dir : string;
  transcript_counter : nat;
  full_transcript : string;
  last_extraction_time : Q;
  files : gmap string string
}.

(** [__init__] followed by the part of [setup] that resets the timer,
    on a disk that holds [disk]. *)
Definition init (u : string) (phrases : list string) (dir : string)
    (disk : gmap string string) : t :=
  {| url := u;
     target_phrases := phrases;
     output_dir := dir;
     transcripts_dir := path_join dir "transcripts";
     transcript_counter := 0;
     full_transcript := "";
     last_extraction_time := 0;
     files := disk |}.

(** One reading of the wall clock: [time.strftime(format)] for each
    format. *)
Definition clock : Type := string -> string.

(** The four readings that [_save_transcript_chunk] takes, in the order
    of its calls of [time.strftime]: for the name of the segment file, for
    the "Timestamp:" line of the record, for the line added to the running
    transcript and for the "Started:" line of the cumulative file. *)
Record readings : Type := mk_readings {
  name_clock : clock;
  record_clock : clock;
  line_clock : clock;
  snapshot_clock : clock
}.

(** Four readings of a clock that has not moved in between. *)
Definition at_once (c : clock) : readings :=
  {| name_clock := c; record_clock := c; line_clock := c;
     snapshot_clock := c |}.

(** The reading of a clock that shows the date [ymd] (year, month, day)
    and the time [hms] (hour, minute, second), for the formats used. *)
Definition clock_at (ymd hms : string * string * string) : clock :=
  fun format =>
    let '(year, month, day) := ymd in
    let '(hour, minute, second) := hms in
    if String.eqb format "%Y%m%d_%H%M%S" then
      year ++ month ++ day ++ "_" ++ hour ++ minute ++ second
    else if String.eqb format "%Y-%m-%d %H:%M:%S" then
      year ++ "-" ++ month ++ "-" ++ day ++ " "
      ++ hour ++ ":" ++ minute ++ ":" ++ second
    else if String.eqb format "%H:%M:%S" then
      hour ++ ":" ++ minute ++ ":" ++ second
    else format.

(** [open(path, 'w').write(...)]: the file is replaced. *)
Definition write_file (path content : string) (self : t) : t :=
  {| url := url self; target_phrases := target_phrases self;
     output_dir := output_dir self;
     transcripts_dir := transcripts_dir self;
     transcript_counter := transcript_counter self;
     full_transcript := full_transcript self;
     last_extraction_time := last_extraction_time self;
     files := <[path := content]> (files self) |}.

Definition segment_path (self : t) (counter : nat) (now : clock) : string :=
  path_join (transcripts_dir self)
    ("segment_" ++ of_nat_03d counter ++ "_" ++ now "%Y%m%d_%H%M%S"
     ++ ".txt").

Definition segment_record (self : t) (counter : nat) (now : clock)
    (transcript_chunk : string) : string :=
  "La Nation - Transcript Segment " ++ of_nat counter ++ nl
  ++ "Timestamp: " ++ now "%Y-%m-%d %H:%M:%S" ++ nl
  ++ "Video: " ++ url self ++ nl
  ++ repeat_char "=" 50 ++ nl ++ nl
  ++ transcript_chunk.

Definition full_transcript_path (self : t) : string :=
  path_join (transcripts_dir self) "full_transcript.txt".

Definition snapshot (self : t) (counter : nat) (now : clock)
    (transcript : string) : string :=
  "La Nation - Complete Live Stream Transcript" ++ nl
  ++ "Video: " ++ url self ++ nl
  ++ "Started: " ++ now "%Y-%m-%d %H:%M:%S" ++ nl
  ++ "Segments processed: " ++ of_nat counter ++ nl
  ++ repeat_char "=" 60 ++ nl
  ++ transcript.

(** How a guarded [with open(path, 'w') as f: f.write(...) ...] ends: all
    the text is written; [open] raises and the file is left as it was; or
    a write raises after the first [kept] characters, which is what the
    file then holds.  In the last two cases the rest of the [try] block is
    skipped. *)
Inductive write_result : Type :=
| Written
| OpenFails
| WriteFails (kept : nat).

Definition completed (r : write_result) : bool :=
  match r with Written => true | _ => false end.

(** The disk after the attempt. *)
Definition attempt_write (r : write_result) (path content : string)
    (self : t) : t :=
  match r with
  | Written => write_file path content self
  | OpenFails => self
  | WriteFails kept => write_file path (take kept content) self
  end.

Definition set_transcript_counter (counter : nat) (self : t) : t :=
  {| url := url self; target_phrases := target_phrases self;
     output_dir := output_dir self;
     transcripts_dir := transcripts_dir self;
     transcript_counter := counter;
     full_transcript := full_transcript self;
     last_extraction_time := last_extraction_time self;
     files := files self |}.

Definition set_full_transcript (transcript : string) (self : t) : t :=
  {| url := url self; target_phrases := target_phrases self;
     output_dir := output_dir self;
     transcripts_dir := transcripts_dir self;
     transcript_counter := transcript_counter self;
     full_transcript := transcript;
     last_extraction_time := last_extraction_time self;
     files := files self |}.

(** [_save_transcript_chunk].  The counter is advanced first; then the
    segment record is written, the chunk is added to the running
    transcript and the cumulative file is rewritten.  [segment_write] and
    [full_write] are the outcomes of the two writes; the first one that
    fails ends the method. *)
Definition _save_transcript_chunk (self : t) (now : readings)
    (segment_write full_write : write_result)
    (transcript_chunk : string) : t :=
  let self := set_transcript_counter (transcript_counter self + 1) self in
  let chunk_path :=
    segment_path self (transcript_counter self) (name_clock now) in
  let self :=
    attempt_write segment_write chunk_path
      (segment_record self (transcript_counter self) (record_clock now)
                      transcript_chunk) self in
  if completed segment_write then
    let self :=
      set_full_transcript
        (full_transcript self ++ nl ++ "[" ++ line_clock now "%H:%M:%S"
         ++ "] " ++ transcript_chunk) self in
    attempt_write full_write (full_transcript_path self)
      (snapshot self (transcript_counter self) (snapshot_clock now)
                (full_transcript self)) self
  else self.

Definition final_path (self : t) : string :=
  path_join (output_dir self) "final_transcript.txt".

Definition summary (self : t) (now : clock) : string :=
  repeat_char "=" 60 ++ nl
  ++ "LA NATION - LIVE STREAM ANALYSIS COMPLETE" ++ nl
  ++ repeat_char "=" 60 ++ nl ++ nl
  ++ "🎬 Video URL: " ++ url self ++ nl
  ++ "📅 Date: " ++ now "%Y-%m-%d %H:%M:%S" ++ nl
  ++ "📊 Total segments: " ++ of_nat (transcript_counter self) ++ nl
  ++ "📝 Total characters: "
  ++ of_nat (String.length (full_transcript self)) ++ nl
  ++ "🔍 Target phrases: "
  ++ (match target_phrases self with
      | [] => "None"
      | _ :: _ => join ", " (target_phrases self)
      end) ++ nl
  ++ "📂 Output directory: " ++ output_dir self ++ nl ++ nl
  ++ "COMPLETE TRANSCRIPT:" ++ nl
  ++ repeat_char "=" 60 ++ nl
  ++ full_transcript self.

(** [_save_final_transcript]: the summary is written only when some
    transcript text was recorded; [final_write] is the outcome of that
    write. *)
Definition _save_final_transcript (self : t) (now : clock)
    (final_write : write_result) : t :=
  if truthy (full_transcript self) then
    attempt_write final_write (final_path self) (summary self now) self
  else self.

(** What the transcription backend answers for one audio file: a text,
    [None], or an exception. *)
Inductive transcription : Type :=
| Heard (text : option string)
| TranscriptionError (e : string).

(** [_process_audio_chunk_direct]: the stripped text, or [None]. *)
Definition _process_audio_chunk_direct (answer : transcription)
  : option string :=
  match answer with
  | Heard (Some transcript) =>
      if truthy transcript && truthy (strip transcript)
      then Some (strip transcript)
      else None
  | Heard None => None
  | TranscriptionError _ => None
  end.

Definition set_last_extraction_time (time : Q) (self : t) : t :=
  {| url := url self; target_phrases := target_phrases self;
     output_dir := output_dir self;
     transcripts_dir := transcripts_dir self;
     transcript_counter := transcript_counter self;
     full_transcript := full_transcript self;
     last_extraction_time := time;
     files := files self |}.

(** One extraction cycle of [start]: [audio_file] is what
    [stream.extract_audio] returned, [answer] what the backend says about
    it, and [segment_write] and [full_write] how the two writes of
    [_save_transcript_chunk] end. *)
Definition cycle (self : t) (current_time : Q) (now : readings)
    (audio_file : option string) (answer : transcription)
    (segment_write full_write : write_result) : t :=
  match audio_file with
  | Some path =>
      if truthy path then
        let self :=
          match _process_audio_chunk_direct answer with
          | Some transcript_chunk =>
              if truthy transcript_chunk
              then _save_transcript_chunk self now segment_write
                     full_write transcript_chunk
              else self
          | None => self
          end in
        set_last_extraction_time current_time self
      else self
  | None => self
  end.

(** One turn of the loop of [start]: a cycle every 30 seconds. *)
Definition turn (self : t) (current_time : Q) (now : readings)
    (audio_file : option string) (answer : transcription)
    (segment_write full_write : write_result) : t :=
  if Qle_bool 30 (current_time - last_extraction_time self)
  then cycle self current_time now audio_file answer segment_write
             full_write
  else self.

End YouTubeLiveProcessor.

From Stdlib Require Import DecimalNat.

(** ** phrase_detector.py: runs of the detector *)

Module DetectorRuns.
Import PyStr PhraseDetector.

(** [l[-n:]] for a list, when [n] is positive; the empty list for [n = 0]:
    the last [n] items. *)
Definition last_items (n : nat) (l : list string) : list string :=
  skipn (List.length l - n) l.

(** The chunks of a sequence that [process_transcript] does not turn
    away: the non-empty ones. *)
Definition observed (chunks : list string) : list string :=
  List.filter truthy chunks.

(** The detector after a sequence of chunks. *)
Definition feed (self : t) (chunks : list string) : t :=
  snd (run self (map Process chunks)).

(** The detector with its window in lower case. *)
Definition lower_window (self : t) : t :=
  {| target_phrases := target_phrases self;
     context_window := context_window self;
     transcript_history := map lower (transcript_history self);
     detected_phrases := detected_phrases self |}.

(** Any use of a detector: the calls of a run, and [reset]. *)
Inductive step : Type :=
| Do (c : call)
| DoReset.

Definition do_step (self : t) (st : step) : t :=
  match st with
  | Do c => snd (do_call self c)
  | DoReset => reset self
  end.

Definition after (self : t) (steps : list step) : t :=
  fold_left do_step steps self.

End DetectorRuns.

(** ** screenshot_capturer.py: file names *)

Module CaptureFiles.
Import ScreenshotCapturer.

(** An ASCII letter, a digit or the underscore. *)
Definition tag_char (c : ascii) : bool :=
  is_alnum c || Ascii.eqb c "_".

Fixpoint tag_chars (s : string) : bool :=
  match s with
  | EmptyString => true
  | String c s' => tag_char c && tag_chars s'
  end.

End CaptureFiles.

(** ** enhanced_youtube_stream.py: using the resolved source *)

Module StreamUse.
Import PyStr EnhancedYouTubeStream.

(** [s.split('/')[-1]]: what follows the last slash, the whole string when
    there is none.  [cur] is the segment being read, reversed. *)
Fixpoint last_segment_from (cur : list ascii) (s : string) : string :=
  match s with
  | EmptyString => string_of_list_ascii (rev cur)
  | String c s' =>
      if Ascii.eqb c "/" then last_segment_from [] s'
      else last_segment_from (c :: cur) s'
  end.

Definition last_segment (s : string) : string := last_segment_from [] s.

(** [_extract_video_id].  [query_v] is what
    [parse_qs(urlparse(url).query).get('v', [None])[0]] gives for the
    URL. *)
Definition _extract_video_id (url : string) (query_v : option string)
  : option string :=
  if contains "youtu.be" url then Some (last_segment url) else query_v.

(** [self.successful_strategy == name] *)
Definition pinned (name : string) (self : t) : bool :=
  match successful_strategy self with
  | Some s => String.eqb s name
  | None => false
  end.

(** The truth value of an optional string: present and non-empty. *)
Definition given (s : option string) : bool :=
  match s with Some x => truthy x | None => false end.

(** [extract_audio]: [by_ytdlp] and [by_streamlink] are what
    [_extract_audio_ytdlp] and [_extract_audio_streamlink] would return. *)
Definition extract_audio (self : t) (by_ytdlp by_streamlink : option string)
  : option string :=
  if pinned "yt-dlp" self && given (stream_url (found self)) then by_ytdlp
  else if pinned "streamlink" self then by_streamlink
  else None.

(** [download_audio], with the results of [_download_audio_ytdlp] and
    [_download_audio_streamlink]. *)
Definition download_audio (self : t) (by_ytdlp by_streamlink : option string)
  : option string :=
  if pinned "yt-dlp" self && given (stream_url (found self)) then by_ytdlp
  else if pinned "streamlink" self && given (stream_quality (found self))
  then by_streamlink
  else None.

Section Capture.
(** An open [cv2.VideoCapture]. *)
Variable capture : Type.

(** The stream with the resources it holds: the open capture, the
    temporary audio file, and the world they live in (the captures that
    were released, in order, and the files that exist). *)
Record handle : Type := mk_handle {
  stream : t;
  cap : option capture;
  audio_file : option string;
  released : list capture;
  existing : gset string
}.

(** [__init__] *)
Definition open_handle (u : string) (disk : gset string) : handle :=
  {| stream := init u; cap := None; audio_file := None;
     released := []; existing := disk |}.

(** [start_video_capture]: [by_ytdlp] and [by_streamlink] are the captures
    that [_start_video_capture_ytdlp] and [_start_video_capture_streamlink]
    would open ([None] when the stream does not open or the tool fails);
    an opened capture is kept in [self.cap]. *)
Definition start_video_capture (self : handle)
    (by_ytdlp by_streamlink : option capture) : option capture * handle :=
  let keep (c : option capture) :=
    match c with
    | Some x =>
        (Some x,
         {| stream := stream self; cap := Some x;
            audio_file := audio_file self; released := released self;
            existing := existing self |})
    | None => (None, self)
    end in
  if pinned "yt-dlp" (stream self) && given (stream_url (found (stream self)))
  then keep by_ytdlp
  else if pinned "streamlink" (stream self) then keep by_streamlink
  else (None, self).

Definition stop_video_capture (self : handle) : handle :=
  match cap self with
  | Some c =>
      {| stream := stream self; cap := None;
         audio_file := audio_file self;
         released := released self ++ [c];
         existing := existing self |}
  | None => self
  end.

(** [release]: [remove_fails] says whether [os.remove] raises. *)
Definition release (self : handle) (remove_fails : bool) : handle :=
  let self := stop_video_capture self in
  match audio_file self with
  | Some f =>
      if truthy f && bool_decide (f ∈ existing self) then
        if remove_fails then self
        else
          {| stream := stream self; cap := cap self;
             audio_file := audio_file self; released := released self;
             existing := existing self ∖ {[ f ]} |}
      else self
  | None => self
  end.

(** [YouTubeLiveProcessor.setup] of main.py, on the stream side: the
    chain, then the video capture. *)
Definition processor_setup (ytdlp streamlink direct : strategy_body)
    (self : handle) (by_ytdlp by_streamlink : option capture)
  : bool * handle :=
  let '(ok, s) := setup ytdlp streamlink direct (stream self) in
  let self := {| stream := s; cap := cap self;
                 audio_file := audio_file self; released := released self;
                 existing := existing self |} in
  if negb ok then (false, self)
  else
    match start_video_capture self by_ytdlp by_streamlink with
    | (Some _, self) => (true, self)
    | (None, self) => (false, self)
    end.
End Capture.

Arguments mk_handle {capture}.
Arguments stream {capture}.
Arguments cap {capture}.
Arguments audio_file {capture}.
Arguments released {capture}.
Arguments existing {capture}.
Arguments open_handle {capture}.
Arguments start_video_capture {capture}.
Arguments stop_video_capture {capture}.
Arguments release {capture}.
Arguments processor_setup {capture}.

End StreamUse.

(** ** vision_analyzer.py *)

Module VisionAnalyzer.
Import PyStr.
#[local] Open Scope string_scope.

(** One entry of [analysis_history]. *)
Record entry : Type := mk_entry {
  timestamp : string;
  image_path : string;
  prompt : string;
  analysis : string
}.

(** The attributes of a [VisionAnalyzer]. *)
Record t : Type := mk {
  model : string;
  analysis_history : list entry
}.

(** [__init__] *)
Definition init : t :=
  {| model := "gemini-1.5-flash"; analysis_history := [] |}.

Definition default_prompt : string :=
  "Describe what you see in this image in detail.".

(** [analyze_image].  [file_exists] is [os.path.exists(image_path)],
    [answer] the text of the model's response ([None] when opening the
    image or calling the model raises) and [now] the time stamp
    [time.strftime("%Y-%m-%d %H:%M:%S")]; [prompt] is [None] or a string. *)
Definition analyze_image (self : t) (file_exists : bool)
    (answer : option string) (now : string)
    (path : string) (prompt : option string) : option string * t :=
  if negb file_exists then (None, self)
  else
    match answer with
    | Some text =>
        let prompt :=
          match prompt with
          | Some p => if truthy p then p else default_prompt
          | None => default_prompt
          end in
        (Some text,
         {| model := model self;
            analysis_history :=
              (analysis_history self
               ++ [{| timestamp := now; image_path := path;
                      prompt := prompt; analysis := text |}])%list |})
    | None => (None, self)
    end.

(** [s[-n:]] for a positive [n]: the last [n] characters, all of [s] when
    it has fewer. *)
Definition last_chars (n : nat) (s : string) : string :=
  String.substring (String.length s - n) n s.

Definition max_transcript_length : nat := 500.

(** The transcript as it is quoted in the prompt. *)
Definition recent (transcript : string) : string :=
  if Nat.ltb max_transcript_length (String.length transcript)
  then last_chars max_transcript_length transcript
  else transcript.

(** The prompt that [analyze_image_with_context] builds. *)
Definition context_prompt (transcript : string)
    (detected_phrase : option string) : string :=
  "Analyze this image from a YouTube video."
  ++ match detected_phrase with
     | Some p =>
         if truthy p then " The phrase '" ++ p ++ "' was just mentioned."
         else ""
     | None => ""
     end
  ++ (if truthy transcript
      then " Recent transcript: '" ++ recent transcript ++ "'"
      else "")
  ++ " Please describe what you see and how it relates to "
  ++ "what was being discussed.".

Definition analyze_image_with_context (self : t) (file_exists : bool)
    (answer : option string) (now : string)
    (path transcript : string) (detected_phrase : option string)
  : option string * t :=
  analyze_image self file_exists answer now path
                (Some (context_prompt transcript detected_phrase)).

(** [get_analysis_history] *)
Definition get_analysis_history (self : t) : list entry :=
  analysis_history self.

(** One request to the analyzer, with what the world answers. *)
Record request : Type := mk_request {
  file_exists : bool;
  answer : option string;
  now : string;
  path : string;
  transcript : string;
  detected_phrase : option string
}.

Definition serve_one (self : t) (r : request) : option string * t :=
  analyze_image_with_context self (file_exists r) (answer r) (now r)
    (path r) (transcript r) (detected_phrase r).

(** A sequence of requests: the results, in order, and the analyzer at the
    end. *)
Fixpoint serve (self : t) (rs : list request) : list (option string) * t :=
  match rs with
  | [] => ([], self)
  | r :: rs' =>
      let '(out, self') := serve_one self r in
      let '(outs, self'') := serve self' rs' in
      (out :: outs, self'')
  end.

(** The results that are not [None]. *)
Fixpoint answers (outs : list (option string)) : list string :=
  match outs with
  | [] => []
  | Some a :: outs' => a :: answers outs'
  | None :: outs' => answers outs'
  end.

End VisionAnalyzer.

(** ** main.py and cli.py: the phrases given by the operator *)

Module PhraseInput.
Import PyStr.

(** [s.split(sep)] for a one-character separator: the pieces between the
    separators, empty pieces included.  [cur] is the piece being read,
    reversed. *)
Fixpoint split_on_from (sep : ascii) (cur : list ascii) (s : string)
  : list string :=
  match s with
  | EmptyString => [string_of_list_ascii (rev cur)]
  | String c s' =>
      if Ascii.eqb c sep
      then string_of_list_ascii (rev cur) :: split_on_from sep [] s'
      else split_on_from sep (c :: cur) s'
  end.

Definition split_on (sep : ascii) (s : string) : list string :=
  split_on_from sep [] s.

(** [[p.strip() for p in phrases.split(",") if p.strip()]], as [main] and
    [get_phrases] compute the target phrases. *)
Definition parse_phrases (phrases : string) : list string :=
  map strip (List.filter (fun p => truthy (strip p)) (split_on "," phrases)).

(** [get_phrases] of cli.py, from the line the operator typed. *)
Definition get_phrases (line : string) : list string :=
  let phrases_input := strip line in
  if truthy phrases_input then parse_phrases phrases_input else [].

(** The string has the character. *)
Fixpoint has_char (c : ascii) (s : string) : bool :=
  match s with
  | EmptyString => false
  | String d s' => Ascii.eqb d c || has_char c s'
  end.

(** The string starts, or ends, with white space. *)
Definition starts_with_space (s : string) : bool :=
  match s with
  | EmptyString => false
  | String c _ => is_space c
  end.

Fixpoint ends_with_space (s : string) : bool :=
  match s with
  | EmptyString => false
  | String c EmptyString => is_space c
  | String _ s' => ends_with_space s'
  end.

(** No white space at either end. *)
Definition trimmed (s : string) : bool :=
  negb (starts_with_space s) && negb (ends_with_space s).

(** A phrase as the operator's list holds it: not empty, no white space
    at either end, no comma. *)
Definition clean_phrase (p : string) : bool :=
  truthy p && trimmed p && negb (has_char "," p).

End PhraseInput.

(** ** main.py: the loop, the sequence of saves and [stop] *)

Module ProcessorRun.
Import PyStr YouTubeLiveProcessor.

(** What one turn of the loop of [start] meets: the clock, the outcome of
    the extraction, the answer of the transcription backend and the
    outcomes of the two writes. *)
Record tick : Type := mk_tick {
  at_time : Q;
  now : readings;
  audio_file : option string;
  answer : transcription;
  segment_write : write_result;
  full_write : write_result
}.

Definition turn_on (self : t) (k : tick) : t :=
  turn self (at_time k) (now k) (audio_file k) (answer k)
       (segment_write k) (full_write k).

(** The loop over a sequence of turns. *)
Definition loop (self : t) (ticks : list tick) : t :=
  fold_left turn_on ticks self.


(** The decimal number a string starts with: [acc] is the value of the
    digits read so far. *)
Definition digit_value (c : ascii) : option nat :=
  let n := nat_of_ascii c in
  if (48 <=? n) && (n <=? 57) then Some (n - 48) else None.

Fixpoint leading_number_from (acc : nat) (s : string) : nat :=
  match s with
  | EmptyString => acc
  | String c s' =>
      match digit_value c with
      | Some d => leading_number_from (10 * acc + d) s'
      | None => acc
      end
  end.

Definition leading_number (s : string) : nat := leading_number_from 0 s.

Section Stop.
Variable capture : Type.

(** The processor with its stream and its stop flag. *)
Record running : Type := mk_running {
  processor : t;
  stream : StreamUse.handle capture;
  stop_event : bool
}.

Definition analysis_history_path (self : t) : string :=
  path_join (output_dir self) "analysis_history.json".

(** [stop].  [remove_fails] is for [stream.release]; [now] and
    [final_write] are for [_save_final_transcript]; [history_json] is the
    text that [json.dump] produces for the analysis history and
    [history_write] the outcome of writing it, which
    [save_analysis_history] guards like the other writers. *)
Definition stop (self : running) (remove_fails : bool) (now : clock)
    (final_write : write_result) (history_json : string)
    (history_write : write_result) : running :=
  if stop_event self then self
  else
    let s := StreamUse.release (stream self) remove_fails in
    let p := _save_final_transcript (processor self) now final_write in
    let p := attempt_write history_write (analysis_history_path p)
                           history_json p in
    {| processor := p; stream := s; stop_event := true |}.
End Stop.

Arguments mk_running {capture}.
Arguments processor {capture}.
Arguments stream {capture}.
Arguments stop_event {capture}.
Arguments stop {capture}.

End ProcessorRun.

(** * Properties *)

(** ** Lists of strings *)

Section StringLists.
Import PyStr.

Lemma mem_In (x : string) (xs : list string) :
  mem x xs = true <-> In x xs.
Proof.
  unfold mem. rewrite existsb_exists. split.
  - intros [y [Hy Heq]]. apply String.eqb_eq in Heq. now subst.
  - intros H. exists x. split; [assumption | apply String.eqb_refl].
Qed.

Lemma mem_not_In (x : string) (xs : list string) :
  mem x xs = false <-> ~ In x xs.
Proof.
  rewrite <- mem_In. destruct (mem x xs); split; congruence.
Qed.

Lemma truthy_nonempty (s : string) : truthy s = true <-> s <> "".
Proof. destruct s; simpl; split; congruence. Qed.

Lemma truthy_empty (s : string) : truthy s = false <-> s = "".
Proof. destruct s; simpl; split; congruence. Qed.

(** [String.prefix] and [contains] decide what their names say. *)
Lemma prefix_iff (s1 s2 : string) :
  String.prefix s1 s2 = true <-> exists post, s2 = (s1 ++ post)%string.
Proof.
  revert s2. induction s1 as [|a s1 IH]; intros [|b s2]; simpl.
  - split; [intros _; now exists "" | reflexivity].
  - split; [intros _; now exists (String b s2) | reflexivity].
  - split; [discriminate | intros [post H]; discriminate].
  - destruct (ascii_dec a b) as [-> | Hne].
    + rewrite IH. split; intros [post H]; exists post.
      * now subst.
      * now injection H.
    + split; [discriminate|]. intros [post H]. injection H as H1 H2.
      congruence.
Qed.

Lemma contains_unfold (needle hay : string) :
  contains needle hay
  = String.prefix needle hay
    || match hay with
       | EmptyString => false
       | String _ hay' => contains needle hay'
       end.
Proof. destruct hay; reflexivity. Qed.

Lemma contains_iff (needle hay : string) :
  contains needle hay = true
  <-> exists pre post, hay = (pre ++ needle ++ post)%string.
Proof.
  induction hay as [|c hay IH];
    rewrite contains_unfold, orb_true_iff, prefix_iff.
  - split.
    + intros [[post H] | H]; [now exists "", post | discriminate].
    + intros [[|c pre] [post H]]; [left; now exists post | discriminate].
  - rewrite IH. split.
    + intros [[post H] | [pre [post H]]].
      * now exists "", post.
      * exists (String c pre), post. simpl. now subst.
    + intros [[|c' pre] [post H]].
      * left. now exists post.
      * right. simpl in H. injection H as H1 H2. now exists pre, post.
Qed.

(** [split] yields no empty word. *)
Lemma split_from_nonempty (s : string) :
  forall cur w, In w (split_from cur s) -> w <> "".
Proof.
  assert (Hword : forall a cur, string_of_list_ascii (rev (a :: cur)) <> "").
  { intros a cur. simpl. destruct (rev cur); simpl; discriminate. }
  induction s as [|c s IH]; intros cur w; simpl.
  - destruct cur as [|a cur]; simpl; [tauto|].
    intros [<- | []]. apply Hword.
  - destruct (is_space c); [|apply IH].
    destruct cur as [|a cur]; [apply IH|].
    simpl. intros [<- | Hin]; [apply Hword | eapply IH; eassumption].
Qed.

Lemma split_nonempty (s w : string) : In w (split s) -> w <> "".
Proof. apply split_from_nonempty. Qed.
End StringLists.

(** ** The phrase list *)

Section TargetPhrases.
Import PyStr PhraseDetector.

Lemma In_list_remove (x y : string) (l : list string) :
  In y (list_remove x l) -> In y l.
Proof.
  induction l as [|z l IH]; simpl; [tauto|].
  destruct (String.eqb x z); simpl; tauto.
Qed.

Lemma NoDup_list_remove (x : string) (l : list string) :
  List.NoDup l -> List.NoDup (list_remove x l).
Proof.
  induction 1 as [|z l Hz Hl IH]; simpl; [constructor|].
  destruct (String.eqb x z); [assumption|].
  constructor; [|assumption].
  intros Hin. apply Hz. eapply In_list_remove; eassumption.
Qed.

Lemma NoDup_snoc (x : string) (l : list string) :
  List.NoDup l -> ~ In x l -> List.NoDup (l ++ [x]).
Proof.
  intros Hl Hx. induction Hl as [|z l Hz Hl IH]; simpl.
  - constructor; [tauto | constructor].
  - constructor.
    + rewrite in_app_iff. simpl. intros [H | [H | []]].
      * tauto.
      * subst. apply Hx. now left.
    + apply IH. intros H. apply Hx. now right.
Qed.

Lemma add_target_phrase_present (self : t) (phrase : string) :
  phrase = "" \/ In phrase (target_phrases self) ->
  add_target_phrase self phrase = self.
Proof.
  unfold add_target_phrase. intros [-> | Hin]; [reflexivity|].
  apply mem_In in Hin. rewrite Hin. now rewrite andb_false_r.
Qed.

Lemma add_target_phrase_NoDup (self : t) (phrase : string) :
  List.NoDup (target_phrases self) ->
  List.NoDup (target_phrases (add_target_phrase self phrase)).
Proof.
  intros Hnd. unfold add_target_phrase.
  destruct (truthy phrase); simpl; [|assumption].
  destruct (mem phrase (target_phrases self)) eqn:Hm; simpl; [assumption|].
  apply NoDup_snoc; [assumption | now apply mem_not_In].
Qed.

Lemma remove_target_phrase_NoDup (self : t) (phrase : string) :
  List.NoDup (target_phrases self) ->
  List.NoDup (target_phrases (remove_target_phrase self phrase)).
Proof.
  intros Hnd. unfold remove_target_phrase.
  destruct (mem phrase (target_phrases self)); simpl; [|assumption].
  now apply NoDup_list_remove.
Qed.

Lemma add_target_phrase_In (self : t) (phrase : string) :
  phrase <> "" ->
  In phrase (target_phrases (add_target_phrase self phrase)).
Proof.
  intros Hne. unfold add_target_phrase.
  apply truthy_nonempty in Hne. rewrite Hne. simpl.
  destruct (mem phrase (target_phrases self)) eqn:Hm; simpl.
  - now apply mem_In.
  - rewrite in_app_iff. right. now left.
Qed.
End TargetPhrases.

(** ** The detection loop *)

Section DetectionLoop.
Import PyStr PhraseDetector.

(** The loop over the target phrases appends the same phrases to the
    fired list and to the returned list: each matching phrase that was
    not fired yet, once. *)
Lemma check_phrases_acc (text : string) (phrases : list string) :
  forall detected new_detections,
  exists added,
    fold_left (check_phrase text) phrases (detected, new_detections)
    = (detected ++ added, new_detections ++ added)
    /\ List.NoDup added
    /\ forall p, In p added <->
         In p phrases /\ _detect_phrase text (lower p) = true
         /\ ~ In p detected.
Proof.
  induction phrases as [|q ps IH]; intros detected new_detections; simpl.
  - exists []. rewrite !app_nil_r. split; [reflexivity|].
    split; [constructor|]. simpl. tauto.
  - destruct (_detect_phrase text (lower q)) eqn:Hd;
      [destruct (mem q detected) eqn:Hm|]; simpl.
    + destruct (IH detected new_detections) as [added [Heq [Hnd Hin]]].
      exists added. split; [assumption|]. split; [assumption|].
      intros p. rewrite Hin. apply mem_In in Hm.
      split; [tauto|]. intros [[-> | Hp] [H1 H2]]; tauto.
    + apply mem_not_In in Hm.
      destruct (IH (detected ++ [q]) (new_detections ++ [q]))
        as [added [Heq [Hnd Hin]]].
      exists (q :: added). rewrite Heq, <- !app_assoc. simpl.
      split; [reflexivity|]. split.
      * constructor; [|assumption]. rewrite Hin, in_app_iff. simpl. tauto.
      * intros p. simpl. rewrite Hin, in_app_iff. simpl.
        destruct (string_dec q p) as [-> | Hne]; [tauto|]. tauto.
    + destruct (IH detected new_detections) as [added [Heq [Hnd Hin]]].
      exists added. split; [assumption|]. split; [assumption|].
      intros p. rewrite Hin.
      split; [tauto|]. intros [[-> | Hp] [H1 H2]]; [congruence | tauto].
Qed.

Lemma check_phrases_spec (text : string) (phrases detected : list string) :
  exists added,
    check_phrases text phrases detected = (detected ++ added, added)
    /\ List.NoDup added
    /\ forall p, In p added <->
         In p phrases /\ _detect_phrase text (lower p) = true
         /\ ~ In p detected.
Proof.
  unfold check_phrases.
  destruct (check_phrases_acc text phrases detected []) as [a [H1 H2]].
  exists a. simpl in H1. tauto.
Qed.

(** What one call returns and leaves behind. *)
Lemma process_transcript_spec (self : t) (transcript_chunk : string) :
  exists added,
    process_transcript self transcript_chunk
    = (added,
       {| target_phrases := target_phrases self;
          context_window := context_window self;
          transcript_history :=
            if negb (truthy transcript_chunk)
               || match target_phrases self with [] => true | _ => false end
            then transcript_history self
            else window_after self transcript_chunk;
          detected_phrases := detected_phrases self ++ added |})
    /\ List.NoDup added
    /\ (forall p, In p added -> ~ In p (detected_phrases self))
    /\ (transcript_chunk <> "" ->
        forall p, In p added <->
          In p (target_phrases self)
          /\ _detect_phrase (window_text self transcript_chunk)
                            (lower p) = true
          /\ ~ In p (detected_phrases self)).
Proof.
  unfold process_transcript, window_text.
  destruct (truthy transcript_chunk) eqn:Ht; simpl.
  - destruct (target_phrases self) as [|q ps] eqn:Hps.
    + exists []. rewrite app_nil_r. destruct self; simpl in *. subst.
      split; [reflexivity|]. split; [constructor|].
      split; [simpl; tauto|]. simpl. tauto.
    + fold (window_after self transcript_chunk).
      destruct (check_phrases_spec
                  (combined_text (window_after self transcript_chunk))
                  (q :: ps) (detected_phrases self))
        as [added [Heq [Hnd Hin]]].
      exists added. rewrite Heq.
      split; [reflexivity|]. split; [assumption|].
      split; [intros p Hp; apply Hin in Hp; tauto|].
      intros _ p. apply Hin.
  - exists []. rewrite app_nil_r. destruct self; simpl.
    split; [reflexivity|]. split; [constructor|].
    split; [simpl; tauto|].
    intros Hne. apply truthy_nonempty in Hne. congruence.
Qed.

(** A call of [add_target_phrase] or [remove_target_phrase] returns no
    detection and keeps the fired list. *)
Lemma do_call_spec (self : t) (c : call) :
  exists added,
    fst (do_call self c) = added
    /\ detected_phrases (snd (do_call self c))
       = detected_phrases self ++ added
    /\ List.NoDup added
    /\ forall p, In p added -> ~ In p (detected_phrases self).
Proof.
  destruct c as [chunk | p | p]; simpl.
  - destruct (process_transcript_spec self chunk)
      as [added [Heq [Hnd [Hnew _]]]].
    exists added. rewrite Heq. simpl. tauto.
  - exists []. rewrite app_nil_r. unfold add_target_phrase.
    destruct (_ && _); simpl; repeat split; try constructor; tauto.
  - exists []. rewrite app_nil_r. unfold remove_target_phrase.
    destruct (mem _ _); simpl; repeat split; try constructor; tauto.
Qed.

Lemma run_cons (self : t) (c : call) (cs : list call) :
  run self (c :: cs)
  = (fst (do_call self c) ++ fst (run (snd (do_call self c)) cs),
     snd (run (snd (do_call self c)) cs)).
Proof.
  simpl. destruct (do_call self c) as [out self']. simpl.
  now destruct (run self' cs).
Qed.

Lemma run_app (self : t) (cs1 cs2 : list call) :
  run self (cs1 ++ cs2)
  = (fst (run self cs1) ++ fst (run (snd (run self cs1)) cs2),
     snd (run (snd (run self cs1)) cs2)).
Proof.
  revert self. induction cs1 as [|c cs1 IH]; intros self.
  - simpl. now destruct (run self cs2).
  - rewrite <- app_comm_cons, !run_cons, IH. simpl.
    now rewrite app_assoc.
Qed.

(** Over a whole run the returned phrases are pairwise distinct, none
    of them had fired before the run, and all of them, like the phrases
    fired before, are in the fired list at the end. *)
Lemma run_fresh (cs : list call) :
  forall self,
    List.NoDup (fst (run self cs))
    /\ (forall p, In p (fst (run self cs)) ->
                  ~ In p (detected_phrases self))
    /\ (forall p, In p (detected_phrases self) ->
                  In p (detected_phrases (snd (run self cs))))
    /\ (forall p, In p (fst (run self cs)) ->
                  In p (detected_phrases (snd (run self cs)))).
Proof.
  induction cs as [|c cs IH]; intros self.
  - simpl. split; [constructor|]. tauto.
  - rewrite run_cons. simpl.
    destruct (do_call_spec self c) as [added [H1 [H2 [H3 H4]]]].
    destruct (IH (snd (do_call self c))) as [I1 [I2 [I3 I4]]].
    rewrite H1, H2 in *. split; [|split; [|split]].
    + apply List.NoDup_app; [assumption | assumption |].
      intros p Hp Hq. apply I2 in Hq. apply Hq.
      rewrite in_app_iff. now right.
    + intros p. rewrite in_app_iff. intros [Hp | Hp].
      * now apply H4.
      * apply I2 in Hp. intros Hq. apply Hp.
        rewrite in_app_iff. now left.
    + intros p Hp. apply I3. rewrite in_app_iff. now left.
    + intros p. rewrite in_app_iff. intros [Hp | Hp].
      * apply I3. rewrite in_app_iff. now right.
      * now apply I4.
Qed.
End DetectionLoop.

(** ** Claims on the phrase detector *)

Section DetectorClaims.
Import PyStr PhraseDetector.






(** The rational test stands for the test on doubles: for phrases of up
    to 128 words the two give the same answer, whatever the number of
    matching words. *)
Lemma reaches_threshold_double_agrees (matches total : nat) :
  3 <= total <= 128 -> matches <= total ->
  reaches_threshold_double matches total = reaches_threshold matches total.
Proof.
  intros Ht Hm.
  assert (Hall : tests_agree_upto 128 = true) by (vm_compute; reflexivity).
  unfold tests_agree_upto in Hall. rewrite forallb_forall in Hall.
  assert (Hin : In total (seq 3 (128 - 2))) by (apply in_seq; lia).
  specialize (Hall total Hin). rewrite forallb_forall in Hall.
  apply Bool.eqb_prop, Hall, in_seq. lia.
Qed.

(** The count of [_detect_phrase] is the number of phrase words, each
    counted as often as the phrase has it, that are among the words of
    the text. *)
Lemma count_matches_present (phrase_words text_words : list string) :
  count_matches phrase_words text_words
  = List.length
      (List.filter
         (fun w => if List.in_dec string_dec w text_words then true
                   else false)
         phrase_words).
Proof.
  unfold count_matches. f_equal. apply filter_ext. intros w.
  destruct (List.in_dec string_dec w text_words) as [Hin | Hout].
  - now apply mem_In.
  - now apply mem_not_In.
Qed.

(** C2.  For a phrase of three words or more that does not occur as a
    contiguous run of the text, [_detect_phrase] holds exactly when the
    number of phrase words that are among the words of the text, over the
    number of phrase words, is at least 3/4; so a four-word phrase
    matches with three of its words present and does not with two.  The
    words of the text that are not in the phrase do not count. *)
Theorem long_phrase_matches_iff_ratio (text phrase : string) :
  3 <= List.length (split phrase) ->
  contains phrase text = false ->
  let present :=
    List.filter
      (fun w => if List.in_dec string_dec w (split text) then true
                else false)
      (split phrase) in
  let total := List.length (split phrase) in
  (_detect_phrase text phrase = true
   <-> (3 # 4 <= Z.of_nat (List.length present) # Pos.of_nat total)%Q)
  /\ (_detect_phrase text phrase = true
      <-> 3 * total <= 4 * List.length present)
  /\ (total = 4 -> List.length present = 3 ->
      _detect_phrase text phrase = true)
  /\ (total = 4 -> List.length present = 2 ->
      _detect_phrase text phrase = false)
  /\ (forall w, In w present <-> In w (split phrase) /\ In w (split text)).
Proof.
  intros Hlen Hsub present total.
  assert (Hnat : _detect_phrase text phrase = true
                 <-> 3 * total <= 4 * List.length present).
  { unfold _detect_phrase. rewrite Hsub.
    destruct (List.length (split phrase) <=? 2) eqn:Hle;
      [apply Nat.leb_le in Hle; lia|].
    rewrite count_matches_present. fold present. fold total.
    unfold reaches_threshold. rewrite Qle_bool_iff.
    subst total. destruct (List.length (split phrase)) as [|n]; [lia|].
    unfold match_threshold, Qle, Qdiv, Qmult, Qinv, inject_Z. simpl.
    lia. }
  split; [|split; [exact Hnat | split; [|split]]].
  - rewrite Hnat. unfold Qle. simpl. subst total.
    destruct (List.length (split phrase)) as [|n]; [lia|]. lia.
  - intros H4 H3. apply Hnat. lia.
  - intros H4 H2. apply not_true_is_false. intros Hd.
    apply Hnat in Hd. lia.
  - intros w. subst present. rewrite filter_In.
    destruct (List.in_dec string_dec w (split text)); intuition congruence.
Qed.

(** The spec's phrase "artificial intelligence is transforming": a text
    of seven words that has three of the four, then one that has two. *)
Lemma long_phrase_matches_iff_ratio_witness :
  _detect_phrase "today artificial intelligence keeps transforming the news"
                 "artificial intelligence is transforming" = true
  /\ _detect_phrase "the artificial flavour is awful and bad"
                    "artificial intelligence is transforming" = false.
Proof.
  split.
  - destruct (long_phrase_matches_iff_ratio
                "today artificial intelligence keeps transforming the news"
                "artificial intelligence is transforming")
      as [_ [_ [H3 _]]];
      [vm_compute; lia | reflexivity |].
    apply H3; reflexivity.
  - destruct (long_phrase_matches_iff_ratio
                "the artificial flavour is awful and bad"
                "artificial intelligence is transforming")
      as [_ [_ [_ [H2 _]]]];
      [vm_compute; lia | reflexivity |].
    apply H2; reflexivity.
Defined.

(** C3.  In a run without [reset] (calls of [process_transcript], with
    phrases added or removed in between) no phrase is returned more than
    once over all calls together, and a phrase that has fired is never
    returned again.  A chunk that matches a target phrase which has not
    fired makes it fire, and fed a second time does not: the two calls
    yield the phrase exactly once.  So "breaking news", fed the same
    matching text twice, is returned once, by the first call. *)
Theorem fires_at_most_once (self : t) (cs : list call) (p : string) :
  count_occ string_dec (fst (run self cs)) p <= 1
  /\ (In p (detected_phrases self) -> ~ In p (fst (run self cs)))
  /\ (forall cs', In p (fst (run self cs)) ->
                  ~ In p (fst (run (snd (run self cs)) cs')))
  /\ (forall chunk,
        chunk <> "" ->
        In p (target_phrases self) ->
        ~ In p (detected_phrases self) ->
        _detect_phrase (window_text self chunk) (lower p) = true ->
        In p (fst (process_transcript self chunk))
        /\ ~ In p (fst (process_transcript
                          (snd (process_transcript self chunk)) chunk))
        /\ count_occ string_dec
             (fst (run self [Process chunk; Process chunk])) p = 1)
  /\ (fst (process_transcript (init ["breaking news"] 5)
                              "breaking news tonight")
      = ["breaking news"]
      /\ fst (process_transcript
                (snd (process_transcript (init ["breaking news"] 5)
                                         "breaking news tonight"))
                "breaking news tonight")
         = []).
Proof.
  destruct (run_fresh cs self) as [Hnd [Hnew [Hkeep Hfired]]].
  split; [|split; [|split; [|split]]].
  - now apply NoDup_count_occ.
  - intros Hp Hq. now apply (Hnew p).
  - intros cs' Hp Hq.
    destruct (run_fresh cs' (snd (run self cs))) as [_ [Hnew' _]].
    apply (Hnew' p Hq). now apply Hfired.
  - intros chunk Hne Htarget Hfresh Hmatch.
    assert (Hp : In p (fst (process_transcript self chunk))).
    { destruct (process_transcript_spec self chunk)
        as [added [Heq [_ [_ Hadded]]]].
      rewrite Heq. simpl. apply (Hadded Hne p). tauto. }
    destruct (run_fresh [Process chunk; Process chunk] self)
      as [Hnd2 _].
    assert (Hin : In p (fst (run self [Process chunk; Process chunk]))).
    { rewrite run_cons. simpl. rewrite in_app_iff. now left. }
    split; [exact Hp|]. split.
    + destruct (process_transcript_spec self chunk)
        as [added [Heq _]].
      rewrite Heq in Hp |- *. simpl in Hp. simpl snd.
      destruct (process_transcript_spec
                  {| target_phrases := target_phrases self;
                     context_window := context_window self;
                     transcript_history :=
                       if negb (truthy chunk)
                          || match target_phrases self with
                             | [] => true
                             | _ => false
                             end
                       then transcript_history self
                       else window_after self chunk;
                     detected_phrases := detected_phrases self ++ added |}
                  chunk) as [again [Heq2 [_ [Hnew2 _]]]].
      rewrite Heq2. simpl. intros Hagain.
      apply (Hnew2 p Hagain). simpl. rewrite in_app_iff. now right.
    + apply (NoDup_count_occ string_dec) with (x := p) in Hnd2.
      apply (count_occ_In string_dec) in Hin. lia.
  - split; vm_compute; reflexivity.
Qed.

(** The words of "breaking news" in another order: the chunk fires the
    phrase once, however often it is fed. *)
Lemma fires_at_most_once_witness :
  count_occ string_dec
    (fst (run (init ["breaking news"] 5)
              [Process "news is breaking"; Process "news is breaking"]))
    "breaking news" = 1.
Proof.
  apply (proj1 (proj2 (proj2 (proj2 (fires_at_most_once
                                       (init ["breaking news"] 5) []
                                       "breaking news"))))
           "news is breaking").
  - discriminate.
  - simpl. tauto.
  - simpl. tauto.
  - reflexivity.
Defined.

(** C8.  With an empty list of target phrases [process_transcript]
    returns no detection and leaves the detector as it was, the window
    included; chunks observed before the first phrase is added therefore
    change nothing in what the detector does afterwards. *)
Theorem no_targets_no_effect (self : t) :
  target_phrases self = [] ->
  (forall chunk, process_transcript self chunk = ([], self))
  /\ (forall chunks cs,
        run self (map Process chunks ++ cs) = run self cs).
Proof.
  intros Hnil.
  assert (Hone : forall chunk, process_transcript self chunk = ([], self)).
  { intros chunk. unfold process_transcript. rewrite Hnil.
    now rewrite orb_true_r. }
  split; [exact Hone|].
  induction chunks as [|chunk chunks IH]; intros cs; [reflexivity|].
  simpl map. rewrite <- app_comm_cons, run_cons. simpl do_call.
  rewrite Hone. simpl. rewrite IH. now destruct (run self cs).
Qed.

(** Two chunks observed by a detector without phrases, before
    "breaking news" is added. *)
Lemma no_targets_no_effect_witness :
  process_transcript (init [] 5) "breaking news" = ([], init [] 5)
  /\ run (init [] 5)
         [Process "breaking"; Process "news";
          AddPhrase "breaking news"; Process "today"]
     = run (init [] 5) [AddPhrase "breaking news"; Process "today"].
Proof.
  destruct (no_targets_no_effect (init [] 5) eq_refl) as [H1 H2].
  split.
  - apply H1.
  - apply (H2 ["breaking"; "news"]
              [AddPhrase "breaking news"; Process "today"]).
Defined.

(** C9.  [reset] empties the window and the list of fired phrases and
    keeps the target phrases and the window size; after it, a target
    phrase that matches the observed chunk is returned whether or not it
    had fired before the reset.  So "breaking news" fires, does not fire
    on the same text again, and fires once more after [reset]. *)
Theorem reset_rearms (self : t) :
  transcript_history (reset self) = []
  /\ detected_phrases (reset self) = []
  /\ target_phrases (reset self) = target_phrases self
  /\ context_window (reset self) = context_window self
  /\ (forall p chunk,
        In p (target_phrases self) ->
        chunk <> "" ->
        _detect_phrase (window_text (reset self) chunk) (lower p) = true ->
        In p (fst (process_transcript (reset self) chunk)))
  /\ (let d1 := snd (process_transcript (init ["breaking news"] 5)
                                        "breaking news today") in
      In "breaking news" (detected_phrases d1)
      /\ fst (process_transcript d1 "breaking news today") = []
      /\ fst (process_transcript (reset d1) "breaking news today")
         = ["breaking news"]).
Proof.
  repeat (split; [reflexivity|]). split.
  - intros p chunk Hin Hne Hd.
    destruct (process_transcript_spec (reset self) chunk)
      as [added [Heq [_ [_ Hadded]]]].
    rewrite Heq. simpl. apply (Hadded Hne p). simpl. tauto.
  - vm_compute. tauto.
Qed.

(** C10, as amended.  [add_target_phrase] with the empty phrase or with
    a phrase that is already a target leaves the detector unchanged;
    adding a phrase twice is the same as adding it once; it never makes
    a duplicate: no phrase occurs more often than before, or than once;
    a list without duplicates stays without duplicates; and the phrase
    list of a detector that starts with no phrase never has a duplicate,
    whatever is added, removed or observed. *)
Theorem add_target_phrase_idempotent (self : t) (phrase : string) :
  (phrase = "" \/ In phrase (target_phrases self) ->
   add_target_phrase self phrase = self)
  /\ add_target_phrase (add_target_phrase self phrase) phrase
     = add_target_phrase self phrase
  /\ (List.NoDup (target_phrases self) ->
      List.NoDup (target_phrases (add_target_phrase self phrase)))
  /\ (forall q, count_occ string_dec
                  (target_phrases (add_target_phrase self phrase)) q
                <= Nat.max 1 (count_occ string_dec (target_phrases self) q))
  /\ (forall window cs,
        List.NoDup (target_phrases (snd (run (init [] window) cs)))).
Proof.
  split; [apply add_target_phrase_present|]. split; [|split; [|split]].
  - destruct phrase as [|c phrase'] eqn:Hp; [reflexivity|].
    apply add_target_phrase_present. right. rewrite <- Hp.
    apply add_target_phrase_In. congruence.
  - apply add_target_phrase_NoDup.
  - intros q. unfold add_target_phrase.
    destruct (truthy phrase); simpl; [|lia].
    destruct (mem phrase (target_phrases self)) eqn:Hm; simpl; [lia|].
    rewrite count_occ_app. simpl.
    destruct (string_dec phrase q) as [-> | Hne]; [|lia].
    apply mem_not_In in Hm.
    apply (count_occ_not_In string_dec) in Hm. lia.
  - intros window cs.
    assert (Hgen : forall d, List.NoDup (target_phrases d) ->
                             List.NoDup (target_phrases (snd (run d cs)))).
    { induction cs as [|c cs IH]; intros d Hd; [exact Hd|].
      rewrite run_cons. simpl. apply IH.
      destruct c as [chunk | q | q]; simpl.
      - destruct (process_transcript_spec d chunk) as [added [Heq _]].
        now rewrite Heq.
      - now apply add_target_phrase_NoDup.
      - now apply remove_target_phrase_NoDup. }
    apply Hgen. constructor.
Qed.

(** Adding a phrase that is there, and one that is not. *)
Lemma add_target_phrase_idempotent_witness :
  add_target_phrase (init ["breaking news"] 5) "breaking news"
  = init ["breaking news"] 5
  /\ List.NoDup
       (target_phrases (add_target_phrase (init ["breaking news"] 5)
                                          "today")).
Proof.
  split.
  - apply (proj1 (add_target_phrase_idempotent
                    (init ["breaking news"] 5) "breaking news")).
    right. simpl. tauto.
  - apply (proj1 (proj2 (proj2 (add_target_phrase_idempotent
                                  (init ["breaking news"] 5) "today")))).
    simpl. constructor; [simpl; tauto | constructor].
Defined.

(** C10 as stated fails for a list that has a duplicate to begin with.
    The constructor takes the list as it is given, and [main] hands it
    the phrases of the command line as they were typed: "goal,goal" gives
    the detector the phrase twice, and [add_target_phrase] leaves both. *)
Lemma constructor_keeps_duplicates :
  PhraseInput.parse_phrases "goal,goal" = ["goal"; "goal"]
  /\ target_phrases (init (PhraseInput.parse_phrases "goal,goal") 5)
     = ["goal"; "goal"]
  /\ add_target_phrase (init ["goal"; "goal"] 5) "goal"
     = init ["goal"; "goal"] 5
  /\ count_occ string_dec
       (target_phrases (add_target_phrase (init ["goal"; "goal"] 5) "goal"))
       "goal" = 2.
Proof. repeat split. Qed.
End DetectorClaims.

(** ** Claims on the acquisition chain *)

Section ChainClaims.
Import EnhancedYouTubeStream.

Lemma skipn_length_app (l k : list string) :
  skipn (List.length l) (l ++ k) = k.
Proof. induction l as [|x l IH]; simpl; [reflexivity | assumption]. Qed.

Variables ytdlp streamlink direct : strategy_body.

(** C6.  [setup] starts the yt-dlp strategy first, the streamlink
    strategy only when that one has failed, and direct extraction only
    when both have failed; a strategy that returns [False] or raises
    counts as failed and the next one is started.  The first strategy
    that succeeds is recorded in [successful_strategy] and nothing is
    started after it: when yt-dlp fails and streamlink succeeds the
    stream is bound to streamlink, direct extraction is not started and
    the result does not depend on it.  When all three fail, [setup]
    returns [False] and records no strategy. *)
Theorem setup_first_success_wins (self : t) :
  let r1 := ytdlp (url self) (found self) in
  let r2 := streamlink (url self) (snd r1) in
  let r3 := direct (url self) (snd r2) in
  let res := setup ytdlp streamlink direct self in
  fst res
  = succeeded (fst r1) || succeeded (fst r2) || succeeded (fst r3)
  /\ successful_strategy (snd res)
     = (if succeeded (fst r1) then Some "yt-dlp"
        else if succeeded (fst r2) then Some "streamlink"
        else if succeeded (fst r3) then Some "direct_extraction"
        else successful_strategy self)
  /\ started self (snd res)
     = trying_ytdlp
       :: (if succeeded (fst r1) then []
           else trying_streamlink
                :: (if succeeded (fst r2) then [] else [trying_direct]))
  /\ found (snd res)
     = (if succeeded (fst r1) then snd r1
        else if succeeded (fst r2) then snd r2
        else snd r3)
  /\ (succeeded (fst r1) = false -> succeeded (fst r2) = true ->
      fst res = true
      /\ successful_strategy (snd res) = Some "streamlink"
      /\ ~ In trying_direct (started self (snd res))
      /\ forall direct',
           setup ytdlp streamlink direct' self = res).
Proof.
  unfold setup, _setup_with_ytdlp, _setup_with_streamlink,
    _setup_with_direct_extraction, attempt, started.
  cbn [url found logged with_found].
  destruct (ytdlp (url self) (found self)) as [o1 f1].
  destruct o1 as [| |e1];
    cbn [url found logged with_found with_strategy fst snd];
    destruct (streamlink (url self) f1) as [o2 f2];
    destruct o2 as [| |e2];
    cbn [url found logged with_found with_strategy fst snd];
    destruct (direct (url self) f2) as [o3 f3];
    destruct o3 as [| |e3];
    cbn [url found log successful_strategy logged with_found
         with_strategy fst snd succeeded orb];
    rewrite <- ?app_assoc, skipn_length_app;
    repeat split; try reflexivity; try discriminate;
    vm_compute; intuition discriminate.
Qed.
End ChainClaims.

Section ChainExample.
Import EnhancedYouTubeStream.

(** yt-dlp raises, streamlink resolves a live stream, and direct extraction
    would have succeeded had it been asked. *)
Lemma setup_first_success_wins_witness :
  fst (setup (fun _ f => (Raise "Sign in to confirm", f))
             (fun _ f => (ReturnTrue,
                          {| stream_url := stream_url f; is_live := true;
                             title := "Live Stream";
                             stream_quality := Some "720p" |}))
             (fun _ f => (ReturnTrue, f))
             (init "https://youtu.be/x")) = true
  /\ successful_strategy
       (snd (setup (fun _ f => (Raise "Sign in to confirm", f))
                   (fun _ f => (ReturnTrue,
                                {| stream_url := stream_url f;
                                   is_live := true;
                                   title := "Live Stream";
                                   stream_quality := Some "720p" |}))
                   (fun _ f => (ReturnTrue, f))
                   (init "https://youtu.be/x"))) = Some "streamlink"
  /\ ~ In trying_direct
       (started (init "https://youtu.be/x")
          (snd (setup (fun _ f => (Raise "Sign in to confirm", f))
                      (fun _ f => (ReturnTrue,
                                   {| stream_url := stream_url f;
                                      is_live := true;
                                      title := "Live Stream";
                                      stream_quality := Some "720p" |}))
                      (fun _ f => (ReturnTrue, f))
                      (init "https://youtu.be/x")))).
Proof.
  destruct (setup_first_success_wins
              (fun _ f => (Raise "Sign in to confirm", f))
              (fun _ f => (ReturnTrue,
                           {| stream_url := stream_url f; is_live := true;
                              title := "Live Stream";
                              stream_quality := Some "720p" |}))
              (fun _ f => (ReturnTrue, f))
              (init "https://youtu.be/x"))
    as [_ [_ [_ [_ H]]]].
  destruct (H eq_refl eq_refl) as [H1 [H2 [H3 _]]].
  split; [exact H1 | split; [exact H2 | exact H3]].
Defined.
End ChainExample.

(** ** Claims on capture throttling *)

Section ThrottleClaims.
Import ScreenshotCapturer.

Lemma Qlt_bool_iff (x y : Q) : Qlt_bool x y = true <-> (x < y)%Q.
Proof.
  unfold Qlt_bool. rewrite negb_true_iff. split.
  - intros H. apply Qnot_le_lt. intros Hle.
    apply Qle_bool_iff in Hle. congruence.
  - intros H. apply not_true_is_false. intros Hle.
    apply Qle_bool_iff in Hle. now apply Qlt_not_le in H.
Qed.

Lemma passes_iff {frame : Type} (self : t frame) (time : Q) :
  passes self time = true
  <-> (min_capture_interval self <= time - last_capture_time self)%Q.
Proof.
  unfold passes, Qlt_bool. rewrite negb_involutive. apply Qle_bool_iff.
Qed.

(** A request that is not stopped by the interval check records its
    clock reading and keeps the interval, however the write ends; it
    returns a path unless the write raises, and the frame is saved under
    that path when the write was made. *)
Lemma capture_screenshot_proceeds {frame : Type} (self : t frame)
    (current_time : Q) (timestamp : string) (write : image_write)
    (fr : frame) (phrase : option string) (throttle : bool) :
  throttle = false \/ passes self current_time = true ->
  last_capture_time
    (snd (capture_screenshot self current_time timestamp write
                             fr phrase throttle)) = current_time
  /\ min_capture_interval
       (snd (capture_screenshot self current_time timestamp write
                                fr phrase throttle))
     = min_capture_interval self
  /\ (write <> ImageWriteRaises ->
      fst (capture_screenshot self current_time timestamp write
                              fr phrase throttle) <> None)
  /\ (write = ImageWritten ->
      exists path,
        fst (capture_screenshot self current_time timestamp write
                                fr phrase throttle) = Some path
        /\ saved (snd (capture_screenshot self current_time timestamp
                                          write fr phrase throttle))
           !! path = Some fr).
Proof.
  intros Hgo. unfold capture_screenshot.
  assert (Hgate : throttle
                  && Qlt_bool (current_time - last_capture_time self)
                              (min_capture_interval self) = false).
  { destruct Hgo as [-> | Hp]; [reflexivity|].
    unfold passes in Hp. apply negb_true_iff in Hp. rewrite Hp.
    apply andb_false_r. }
  rewrite Hgate. destruct write; simpl.
  - split; [reflexivity|]. split; [reflexivity|]. split; [discriminate|].
    intros _. eexists. split; [reflexivity|]. apply lookup_insert_eq.
  - split; [reflexivity|]. split; [reflexivity|]. split; discriminate.
  - split; [reflexivity|]. split; [reflexivity|]. split; [congruence|].
    discriminate.
Qed.

(** A throttled request made less than the interval after the last
    capture returns nothing and changes nothing. *)
Lemma throttled_dropped {frame : Type} (self : t frame) (r : request frame) :
  (at_time r - last_capture_time self < min_capture_interval self)%Q ->
  throttled self r = (None, self).
Proof.
  intros Hlt. unfold throttled, capture_screenshot.
  apply Qlt_bool_iff in Hlt. now rewrite Hlt.
Qed.

Lemma serve_spaced {frame : Type} (rs : list (request frame)) :
  forall self : t frame,
    spaced (min_capture_interval self) (last_capture_time self)
           (fst (serve self rs))
    /\ min_capture_interval (snd (serve self rs))
       = min_capture_interval self.
Proof.
  induction rs as [|r rs IH]; intros self; [simpl; tauto|].
  simpl. destruct (passes self (at_time r)) eqn:Hp.
  - destruct (capture_screenshot_proceeds self (at_time r) (stamp r)
                (outcome r) (image r) (for_phrase r) true
                (or_intror Hp)) as [Hlast [Hmin _]].
    fold (throttled self r) in Hlast, Hmin.
    destruct (throttled self r) as [out self1]. simpl in Hlast, Hmin.
    specialize (IH self1). rewrite Hlast, Hmin in IH.
    destruct (serve self1 rs) as [ts self2]. simpl in *.
    apply passes_iff in Hp. tauto.
  - assert (Hdrop : throttled self r = (None, self)).
    { apply throttled_dropped. apply Qlt_bool_iff.
      unfold passes in Hp. now apply negb_false_iff in Hp. }
    rewrite Hdrop. specialize (IH self).
    destruct (serve self rs) as [ts self2]. simpl in *. exact IH.
Qed.

(** C7, as amended.  A request that got past the interval check (or was
    made with [throttle=False]) restarts the interval, whether or not
    its image is written; after it, every throttled request whose clock
    reading is less than [min_capture_interval] later is dropped: it
    returns no path and leaves the capturer and the saved files as they
    were, however many such requests follow.  Over any sequence of
    throttled requests, two requests that go through next to each other
    are at least [min_capture_interval] apart. *)
Theorem throttled_within_interval_dropped {frame : Type}
    (self : t frame) (current_time : Q) (timestamp : string)
    (write : image_write) (fr : frame) (phrase : option string)
    (throttle : bool) :
  throttle = false \/ passes self current_time = true ->
  let self1 := snd (capture_screenshot self current_time timestamp
                                       write fr phrase throttle) in
  (last_capture_time self1 = current_time
   /\ (write <> ImageWriteRaises ->
       fst (capture_screenshot self current_time timestamp write
                               fr phrase throttle) <> None))
  /\ (forall r : request frame,
     (at_time r - current_time < min_capture_interval self)%Q ->
     throttled self1 r = (None, self1))
  /\ (forall rs : list (request frame),
        List.Forall
          (fun r => (at_time r - current_time
                     < min_capture_interval self)%Q) rs ->
        serve self1 rs = ([], self1))
  /\ (forall (other : t frame) (rs : list (request frame)),
        spaced (min_capture_interval other) (last_capture_time other)
               (fst (serve other rs))).
Proof.
  intros Hgo self1.
  destruct (capture_screenshot_proceeds self current_time timestamp
              write fr phrase throttle Hgo)
    as [Hlast [Hmin [Hpath _]]].
  fold self1 in Hlast, Hmin.
  assert (Hone : forall r : request frame,
             (at_time r - current_time < min_capture_interval self)%Q ->
             throttled self1 r = (None, self1)).
  { intros r Hr. apply throttled_dropped. now rewrite Hlast, Hmin. }
  split; [split; [exact Hlast | exact Hpath]|]. split; [exact Hone|]. split.
  - induction 1 as [|r rs Hr Hrs IH]; [reflexivity|].
    simpl. rewrite (Hone r Hr), IH.
    unfold passes. rewrite Hlast, Hmin.
    apply Qlt_bool_iff in Hr. now rewrite Hr.
  - intros other rs. apply serve_spaced.
Qed.

(** A capture at 1000 s and a throttled request one second later. *)
Lemma throttled_within_interval_dropped_witness :
  throttled
    (snd (capture_screenshot (init "shots") 1000 "20250101_120000"
                             ImageWritten tt (Some "breaking news") true))
    (mk_request 1001 "20250101_120001" ImageWritten tt (Some "today"))
  = (None,
     snd (capture_screenshot (init "shots") 1000 "20250101_120000"
                             ImageWritten tt (Some "breaking news") true)).
Proof.
  apply (proj1 (proj2 (throttled_within_interval_dropped
                         (init "shots") 1000 "20250101_120000"
                         ImageWritten tt (Some "breaking news") true
                         (or_intror eq_refl)))).
  reflexivity.
Defined.

(** C7 as stated fails for two throttled requests of which the first was
    itself dropped.  Three throttled requests at 1000 s, 1001.5 s and
    1002.5 s: the second and the third are one second apart, the second
    is dropped (it comes 1.5 s after the capture at 1000 s) and the third
    goes through (2.5 s after that capture) and saves a screenshot. *)
Lemma second_of_close_pair_proceeds :
  (at_time (mk_request (2005 # 2) "20250101_120002" ImageWritten tt
                        None)
   - at_time (mk_request (2003 # 2) "20250101_120001" ImageWritten tt
                          None)
   < min_capture_interval (init (frame := unit) "shots"))%Q
  /\ fst (throttled
            (snd (throttled (init "shots")
                    (mk_request 1000 "20250101_120000" ImageWritten tt None)))
            (mk_request (2003 # 2) "20250101_120001" ImageWritten tt None))
     = None
  /\ fst (throttled
            (snd (throttled
                    (snd (throttled (init "shots")
                            (mk_request 1000 "20250101_120000" ImageWritten tt
                                        None)))
                    (mk_request (2003 # 2) "20250101_120001" ImageWritten tt
                                None)))
            (mk_request (2005 # 2) "20250101_120002" ImageWritten tt None))
     = Some "shots/screenshot_20250101_120002.jpg".
Proof.
  split; [reflexivity|]. split; vm_compute; reflexivity.
Qed.
End ThrottleClaims.

(** ** Claims on transcript persistence *)

Section PersistenceClaims.
Import PyStr YouTubeLiveProcessor.
#[local] Open Scope string_scope.

Lemma append_cancel_l (a x y : string) : a ++ x = a ++ y -> x = y.
Proof.
  induction a as [|c a IH]; simpl; intros H; [assumption|].
  injection H as H. now apply IH.
Qed.

(** Two different relative names give two different paths under one
    directory. *)
Lemma path_join_neq (dir x y : string) :
  String.prefix "/" x = false -> String.prefix "/" y = false ->
  x <> y -> path_join dir x <> path_join dir y.
Proof.
  intros Hx Hy Hne. unfold path_join. rewrite Hx, Hy.
  destruct (negb (truthy dir)); [assumption|].
  destruct (String.eqb _ "/"); intros H; apply append_cancel_l in H.
  - contradiction.
  - injection H as H. contradiction.
Qed.

Lemma segment_path_not_snapshot (self : t) (counter : nat) (now : clock) :
  segment_path self counter now <> full_transcript_path self.
Proof.
  unfold segment_path, full_transcript_path.
  apply path_join_neq; [reflexivity | reflexivity | discriminate].
Qed.

(** What [_save_transcript_chunk] leaves behind, for each outcome of its
    two writes. *)
Lemma _save_transcript_chunk_spec (self : t) (now : readings)
    (segment_write full_write : write_result)
    (transcript_chunk : string) :
  let counter := transcript_counter self + 1 in
  let transcript :=
    full_transcript self ++ nl ++ "[" ++ line_clock now "%H:%M:%S" ++ "] "
    ++ transcript_chunk in
  let self' := _save_transcript_chunk self now segment_write full_write
                                      transcript_chunk in
  transcript_counter self' = counter
  /\ full_transcript self'
     = (if completed segment_write then transcript
        else full_transcript self)
  /\ (segment_write = Written ->
      files self' !! segment_path self counter (name_clock now)
      = Some (segment_record self counter (record_clock now)
                             transcript_chunk))
  /\ (segment_write = Written -> full_write = Written ->
      files self' !! full_transcript_path self
      = Some (snapshot self counter (snapshot_clock now) transcript))
  /\ (segment_write <> Written \/ full_write = OpenFails ->
      files self' !! full_transcript_path self
      = files self !! full_transcript_path self)
  /\ (segment_write = OpenFails -> files self' = files self)
  /\ (forall path,
        path <> full_transcript_path self ->
        path <> segment_path self counter (name_clock now) ->
        files self' !! path = files self !! path).
Proof.
  assert (Hpaths : segment_path self (transcript_counter self + 1)
                                (name_clock now)
                   <> full_transcript_path self)
    by apply segment_path_not_snapshot.
  unfold _save_transcript_chunk, attempt_write, write_file.
  unfold segment_path, full_transcript_path, segment_record, snapshot
    in *.
  destruct segment_write as [| |kept]; destruct full_write as [| |kept'];
    cbn [completed set_transcript_counter set_full_transcript files url
         transcripts_dir transcript_counter full_transcript];
    (split; [reflexivity|]); (split; [reflexivity|]);
    (split; [intros Hs; try discriminate Hs;
             rewrite ?lookup_insert_ne by congruence;
             try apply lookup_insert_eq|]);
    (split; [intros Hs Hf; try discriminate Hs; try discriminate Hf;
             apply lookup_insert_eq|]);
    (split; [intros [Hs | Hf]; try congruence; try discriminate Hf;
             rewrite ?lookup_insert_ne by congruence; reflexivity|]);
    (split; [intros Hs; try discriminate Hs; reflexivity|]);
    intros path Hfull Hseg;
    rewrite ?lookup_insert_ne by congruence; reflexivity.
Qed.

Lemma strip_truthy (text : string) :
  truthy text && truthy (strip text) = truthy (strip text).
Proof. destruct text; reflexivity. Qed.




(** C5, as amended.  [_save_final_transcript] changes nothing but the
    summary file and raises nothing, however its write ends.  Called
    twice with the same clock reading, both writes going through, it
    leaves what one call leaves: the summary file with the totals and the
    transcript.  When the file cannot be opened nothing is written at
    all; and when no transcript text was recorded (no chunk was ever
    saved), the call does not fail and writes nothing. *)
Theorem save_final_transcript_idempotent (self : t) (now : clock)
    (final_write : write_result) :
  _save_final_transcript (_save_final_transcript self now Written)
                         now Written
  = _save_final_transcript self now Written
  /\ (transcript_counter (_save_final_transcript self now final_write)
      = transcript_counter self
      /\ full_transcript (_save_final_transcript self now final_write)
         = full_transcript self)
  /\ (forall path, path <> final_path self ->
        files (_save_final_transcript self now final_write) !! path
        = files self !! path)
  /\ (full_transcript self <> "" ->
      files (_save_final_transcript self now Written) !! final_path self
      = Some (summary self now))
  /\ _save_final_transcript self now OpenFails = self
  /\ (full_transcript self = "" ->
      _save_final_transcript self now final_write = self).
Proof.
  unfold _save_final_transcript.
  destruct (truthy (full_transcript self)) eqn:Ht.
  - split; [|split; [|split; [|split; [|split]]]].
    + unfold attempt_write. unfold write_file at 1 2.
      cbn [full_transcript]. rewrite Ht.
      unfold write_file, final_path, summary. cbn. f_equal.
      apply insert_insert_eq.
    + destruct final_write; split; reflexivity.
    + intros path Hpath.
      destruct final_write; unfold attempt_write, write_file;
        cbn [files]; try reflexivity;
        apply lookup_insert_ne; congruence.
    + intros _. unfold attempt_write, write_file. cbn [files].
      apply lookup_insert_eq.
    + reflexivity.
    + intros Hempty. apply truthy_empty in Hempty. congruence.
  - rewrite Ht. destruct self; repeat split; try reflexivity.
    intros Hne. apply truthy_nonempty in Hne. simpl in *. congruence.
Qed.

(** After one chunk, on a disk that takes the write, the summary file
    holds the summary. *)
Lemma save_final_transcript_idempotent_witness :
  files
    (_save_final_transcript
       (_save_transcript_chunk (init "https://youtu.be/x" [] "out" ∅)
          (at_once (clock_at ("2025", "01", "01") ("12", "00", "01")))
          Written Written "hello")
       (clock_at ("2025", "01", "01") ("12", "05", "00")) Written)
  !! "out/final_transcript.txt"
  = Some (summary
            (_save_transcript_chunk (init "https://youtu.be/x" [] "out" ∅)
               (at_once (clock_at ("2025", "01", "01") ("12", "00", "01")))
               Written Written "hello")
            (clock_at ("2025", "01", "01") ("12", "05", "00"))).
Proof.
  apply (proj1 (proj2 (proj2 (proj2 (save_final_transcript_idempotent
           (_save_transcript_chunk (init "https://youtu.be/x" [] "out" ∅)
              (at_once (clock_at ("2025", "01", "01") ("12", "00", "01")))
              Written Written "hello")
           (clock_at ("2025", "01", "01") ("12", "05", "00"))
           Written))))).
  vm_compute. discriminate.
Defined.

(** C5 as stated fails on both counts.  With no chunk recorded the call
    writes no summary file at all; and two calls from the same state
    with clock readings one second apart write different summaries. *)
Lemma final_transcript_skipped_without_chunks :
  files (_save_final_transcript
           (init "https://youtu.be/x" [] "out" ∅)
           (clock_at ("2025", "01", "01") ("12", "00", "01")) Written)
  !! final_path (init "https://youtu.be/x" [] "out" ∅)
  = None
  /\ summary
       (_save_transcript_chunk (init "https://youtu.be/x" [] "out" ∅)
          (at_once (clock_at ("2025", "01", "01") ("12", "00", "01")))
          Written Written "hello")
       (clock_at ("2025", "01", "01") ("12", "00", "01"))
     <> summary
          (_save_transcript_chunk (init "https://youtu.be/x" [] "out" ∅)
             (at_once (clock_at ("2025", "01", "01") ("12", "00", "01")))
             Written Written "hello")
          (clock_at ("2025", "01", "01") ("12", "00", "02")).
Proof.
  split; [reflexivity|]. vm_compute. discriminate.
Qed.
End PersistenceClaims.

(** * Further properties *)

(** ** The detector over a run *)

Section DetectorRunFacts.
Import PyStr PhraseDetector DetectorRuns.

Lemma deque_append_length (maxlen : nat) (d : list string) (x : string) :
  List.length d <= maxlen ->
  List.length (deque_append maxlen d x) <= maxlen.
Proof.
  intros Hle. unfold deque_append.
  destruct (maxlen <? List.length (d ++ [x])) eqn:Hlt.
  - apply Nat.ltb_lt in Hlt. rewrite length_app in Hlt. simpl in Hlt.
    destruct d as [|y d]; simpl in *; [lia|].
    rewrite length_app. simpl. lia.
  - apply Nat.ltb_ge in Hlt. exact Hlt.
Qed.

Lemma deque_append_last_items (maxlen : nat) (d : list string) (x : string) :
  List.length d <= maxlen ->
  deque_append maxlen d x = last_items maxlen (d ++ [x]).
Proof.
  intros Hle. unfold deque_append, last_items.
  rewrite length_app. simpl.
  destruct (maxlen <? List.length d + 1) eqn:Hlt.
  - apply Nat.ltb_lt in Hlt.
    replace (List.length d + 1 - maxlen) with 1 by lia.
    now destruct (d ++ [x]).
  - apply Nat.ltb_ge in Hlt.
    replace (List.length d + 1 - maxlen) with 0 by lia. reflexivity.
Qed.

Lemma last_items_length (n : nat) (l : list string) :
  List.length (last_items n l) = Nat.min n (List.length l).
Proof. unfold last_items. rewrite length_skipn. lia. Qed.

Lemma last_items_app (n : nat) (a b : list string) :
  last_items n (last_items n a ++ b) = last_items n (a ++ b).
Proof.
  unfold last_items.
  destruct (Nat.le_gt_cases (List.length a) n) as [Hle | Hgt].
  - replace (List.length a - n) with 0 by lia. reflexivity.
  - assert (Hcut : skipn (List.length a - n) a ++ b
                  = skipn (List.length a - n) (a ++ b)).
    { rewrite skipn_app.
      replace (List.length a - n - List.length a) with 0 by lia.
      reflexivity. }
    rewrite Hcut, skipn_skipn, !length_skipn, !length_app.
    f_equal. lia.
Qed.

(** What a call leaves of the window: the old window, or the old window
    with the chunk pushed. *)
Lemma do_call_window (self : t) (c : call) :
  context_window (snd (do_call self c)) = context_window self
  /\ (transcript_history (snd (do_call self c)) = transcript_history self
      \/ exists chunk,
           transcript_history (snd (do_call self c))
           = window_after self chunk).
Proof.
  destruct c as [chunk | p | p]; simpl.
  - destruct (process_transcript_spec self chunk) as [added [Heq _]].
    rewrite Heq. simpl. split; [reflexivity|].
    destruct (negb (truthy chunk) || _); [now left | right; now exists chunk].
  - unfold add_target_phrase. destruct (_ && _); simpl; tauto.
  - unfold remove_target_phrase. destruct (mem _ _); simpl; tauto.
Qed.

(** X1.  The window never holds more chunks than [context_window],
    whatever is done with a new detector: chunks observed, phrases added
    or removed, [reset], in any order. *)
Theorem window_never_exceeds_capacity
    (phrases : list string) (window : nat) (steps : list step) :
  List.length (transcript_history (after (init phrases window) steps))
  <= window
  /\ context_window (after (init phrases window) steps) = window.
Proof.
  assert (Hgen : forall d,
             List.length (transcript_history d) <= context_window d ->
             List.length (transcript_history (after d steps))
             <= context_window d
             /\ context_window (after d steps) = context_window d).
  { unfold after. induction steps as [|st steps IH]; intros d Hd;
      [simpl; tauto|].
    simpl fold_left.
    assert (Hst : context_window (do_step d st) = context_window d
                  /\ List.length (transcript_history (do_step d st))
                     <= context_window d).
    { destruct st as [c|]; simpl; [|split; [reflexivity | lia]].
      destruct (do_call_window d c) as [Hcw Hhist].
      split; [exact Hcw|].
      destruct Hhist as [-> | [chunk ->]]; [exact Hd|].
      now apply deque_append_length. }
    destruct Hst as [Hcw Hlen].
    destruct (IH (do_step d st)) as [I1 I2]; [now rewrite Hcw|].
    rewrite Hcw in I1, I2. tauto. }
  apply (Hgen (init phrases window)). simpl. lia.
Qed.

Lemma feed_cons (self : t) (chunk : string) (chunks : list string) :
  feed self (chunk :: chunks)
  = feed (snd (process_transcript self chunk)) chunks.
Proof. unfold feed. simpl map. now rewrite run_cons. Qed.

(** X2.  While the detector has target phrases, its window is the last
    [context_window] non-empty chunks it was given, oldest first: older
    chunks are dropped from the left, empty chunks never enter. *)
Theorem window_holds_last_chunks (self : t) (chunks : list string) :
  target_phrases self <> [] ->
  List.length (transcript_history self) <= context_window self ->
  transcript_history (feed self chunks)
  = last_items (context_window self)
               (transcript_history self ++ observed chunks).
Proof.
  revert self. induction chunks as [|chunk chunks IH]; intros self Hne Hle.
  - unfold feed, observed, last_items. simpl. rewrite app_nil_r.
    replace (List.length (transcript_history self) - context_window self)
      with 0 by lia. reflexivity.
  - rewrite feed_cons.
    destruct (process_transcript_spec self chunk) as [added [Heq _]].
    rewrite Heq. simpl snd.
    destruct (target_phrases self) as [|q ps] eqn:Hps; [congruence|].
    rewrite orb_false_r.
    rewrite IH.
    + simpl context_window. simpl transcript_history.
      unfold observed. simpl List.filter.
      destruct (truthy chunk); simpl negb; cbv iota.
      * unfold window_after.
        rewrite (deque_append_last_items _ _ _ Hle), last_items_app.
        now rewrite <- app_assoc.
      * reflexivity.
    + simpl. discriminate.
    + simpl. destruct (negb (truthy chunk)); [exact Hle|].
      now apply deque_append_length.
Qed.

(** Six chunks into a window of five: the first one is gone. *)
Lemma window_holds_last_chunks_witness :
  transcript_history
    (feed (init ["breaking news"] 5) ["a"; "b"; ""; "c"; "d"; "e"; "f"])
  = ["b"; "c"; "d"; "e"; "f"].
Proof.
  rewrite (window_holds_last_chunks (init ["breaking news"] 5)
             ["a"; "b"; ""; "c"; "d"; "e"; "f"]).
  - reflexivity.
  - discriminate.
  - simpl. lia.
Defined.

Lemma run_detected (cs : list call) :
  forall self,
    detected_phrases (snd (run self cs))
    = detected_phrases self ++ fst (run self cs).
Proof.
  induction cs as [|c cs IH]; intros self.
  - simpl. now rewrite app_nil_r.
  - rewrite run_cons. simpl. rewrite IH.
    destruct (do_call_spec self c) as [added [H1 [H2 _]]].
    rewrite H1, H2. now rewrite app_assoc.
Qed.

(** X3.  [get_detected_phrases] is the record of the run: the phrases
    fired before it, followed by every phrase the calls have returned, in
    the order they fired; on a new detector it is exactly what the calls
    returned, and it has no phrase twice. *)
Theorem get_detected_phrases_is_history (self : t) (cs : list call) :
  get_detected_phrases (snd (run self cs))
  = get_detected_phrases self ++ fst (run self cs)
  /\ (forall phrases window,
        get_detected_phrases (snd (run (init phrases window) cs))
        = fst (run (init phrases window) cs)
        /\ List.NoDup
             (get_detected_phrases (snd (run (init phrases window) cs)))).
Proof.
  unfold get_detected_phrases. split; [apply run_detected|].
  intros phrases window. rewrite run_detected. simpl.
  split; [reflexivity|]. apply run_fresh.
Qed.

Lemma process_transcript_returns (self : t) (chunk p : string) :
  In p (fst (process_transcript self chunk)) ->
  In p (target_phrases self)
  /\ _detect_phrase (window_text self chunk) (lower p) = true
  /\ ~ In p (detected_phrases self).
Proof.
  destruct (process_transcript_spec self chunk)
    as [added [Heq [_ [_ Hadded]]]].
  destruct (truthy chunk) eqn:Ht.
  - apply truthy_nonempty in Ht. rewrite Heq. simpl. apply (Hadded Ht p).
  - unfold process_transcript. rewrite Ht. simpl. tauto.
Qed.

Lemma count_occ_list_remove (x q : string) (l : list string) :
  count_occ string_dec (list_remove x l) q
  = if string_dec x q then Nat.pred (count_occ string_dec l q)
    else count_occ string_dec l q.
Proof.
  induction l as [|y l IH]; simpl; [now destruct (string_dec x q)|].
  destruct (String.eqb x y) eqn:Hxy.
  - apply String.eqb_eq in Hxy. subst y.
    destruct (string_dec x q); [reflexivity|]. reflexivity.
  - apply String.eqb_neq in Hxy. simpl. rewrite IH.
    destruct (string_dec y q) as [-> | Hyq];
      destruct (string_dec x q) as [-> | Hxq]; try congruence; reflexivity.
Qed.

(** X4.  [remove_target_phrase] drops one occurrence of the phrase, the
    first, and nothing else: a phrase that is not a target leaves the
    detector as it was, the window and the fired phrases are kept, and
    once the phrase is gone from a list without duplicates no chunk makes
    it fire. *)
Theorem remove_target_phrase_disarms (self : t) (phrase : string) :
  (~ In phrase (target_phrases self) ->
   remove_target_phrase self phrase = self)
  /\ (forall q,
        count_occ string_dec
          (target_phrases (remove_target_phrase self phrase)) q
        = if string_dec phrase q
          then Nat.pred (count_occ string_dec (target_phrases self) q)
          else count_occ string_dec (target_phrases self) q)
  /\ transcript_history (remove_target_phrase self phrase)
     = transcript_history self
  /\ detected_phrases (remove_target_phrase self phrase)
     = detected_phrases self
  /\ (List.NoDup (target_phrases self) ->
      forall chunk,
        ~ In phrase
            (fst (process_transcript (remove_target_phrase self phrase)
                                     chunk))).
Proof.
  assert (Hcount : forall q,
             count_occ string_dec
               (target_phrases (remove_target_phrase self phrase)) q
             = if string_dec phrase q
               then Nat.pred (count_occ string_dec (target_phrases self) q)
               else count_occ string_dec (target_phrases self) q).
  { intros q. unfold remove_target_phrase.
    destruct (mem phrase (target_phrases self)) eqn:Hm; simpl.
    - apply count_occ_list_remove.
    - destruct (string_dec phrase q) as [<- | Hne]; [|reflexivity].
      apply mem_not_In in Hm.
      apply (count_occ_not_In string_dec) in Hm. now rewrite Hm. }
  split; [|split; [exact Hcount | split; [|split]]].
  - intros Hnot. apply mem_not_In in Hnot.
    unfold remove_target_phrase. now rewrite Hnot.
  - unfold remove_target_phrase. now destruct (mem _ _).
  - unfold remove_target_phrase. now destruct (mem _ _).
  - intros Hnd chunk Hin.
    apply process_transcript_returns in Hin. destruct Hin as [Hin _].
    apply (count_occ_In string_dec) in Hin.
    rewrite Hcount in Hin.
    destruct (string_dec phrase phrase) as [_ | Hne]; [|congruence].
    apply (NoDup_count_occ string_dec) with (x := phrase) in Hnd. lia.
Qed.

(** A removed phrase no longer fires on its own text. *)
Lemma remove_target_phrase_disarms_witness :
  ~ In "breaking news"
      (fst (process_transcript
              (remove_target_phrase (init ["breaking news"; "today"] 5)
                                    "breaking news")
              "breaking news today"))
  /\ target_phrases
       (remove_target_phrase (init ["breaking news"; "today"] 5)
                             "breaking news") = ["today"].
Proof.
  split; [|reflexivity].
  apply (proj2 (proj2 (proj2 (proj2
           (remove_target_phrase_disarms
              (init ["breaking news"; "today"] 5) "breaking news"))))).
  repeat constructor; simpl; intuition discriminate.
Defined.

Lemma lower_char_idempotent (c : ascii) :
  lower_char (lower_char c) = lower_char c.
Proof. destruct c as [[] [] [] [] [] [] [] []]; reflexivity. Qed.

Lemma lower_idempotent (s : string) : lower (lower s) = lower s.
Proof.
  induction s as [|c s IH]; simpl; [reflexivity|].
  now rewrite lower_char_idempotent, IH.
Qed.

Lemma lower_append (a b : string) :
  lower (a ++ b)%string = (lower a ++ lower b)%string.
Proof. induction a as [|c a IH]; simpl; [reflexivity | now rewrite IH]. Qed.

Lemma lower_join (sep : string) (parts : list string) :
  lower (join sep parts) = join (lower sep) (map lower parts).
Proof.
  unfold join. induction parts as [|x parts IH]; [reflexivity|].
  destruct parts as [|y parts]; [reflexivity|].
  change (String.concat sep (x :: y :: parts))
    with (x ++ sep ++ String.concat sep (y :: parts))%string.
  change (String.concat (lower sep) (map lower (x :: y :: parts)))
    with (lower x ++ lower sep
          ++ String.concat (lower sep) (map lower (y :: parts)))%string.
  now rewrite !lower_append, IH.
Qed.

Lemma combined_text_lower (history : list string) :
  combined_text (map lower history) = combined_text history.
Proof.
  unfold combined_text. rewrite !lower_join, map_map.
  f_equal. apply map_ext. intros s. apply lower_idempotent.
Qed.

Lemma deque_append_map (maxlen : nat) (d : list string) (x : string) :
  map lower (deque_append maxlen d x)
  = deque_append maxlen (map lower d) (lower x).
Proof.
  unfold deque_append.
  rewrite !length_app, length_map. simpl.
  change [lower x] with (map lower [x]).
  rewrite <- (map_app lower d [x]).
  destruct (maxlen <? List.length d + 1); [|reflexivity].
  now destruct (d ++ [x]).
Qed.

Lemma truthy_lower (s : string) : truthy (lower s) = truthy s.
Proof. now destruct s. Qed.

(** X5.  On ASCII text, matching does not see the case of the
    transcript: the window and the chunk may be replaced by their
    lower-case forms, or the chunk by any chunk that differs from it in
    case only, and the same phrases are returned. *)
Theorem detection_ignores_case (self : t) (chunk : string) :
  Forall (fun s => isascii s = true) (target_phrases self) ->
  Forall (fun s => isascii s = true) (transcript_history self) ->
  isascii chunk = true ->
  process_transcript (lower_window self) (lower chunk)
  = (fst (process_transcript self chunk),
     lower_window (snd (process_transcript self chunk)))
  /\ (forall chunk',
        isascii chunk' = true ->
        lower chunk' = lower chunk ->
        fst (process_transcript self chunk')
        = fst (process_transcript self chunk)).
Proof.
  intros _ _ _.
  assert (Hnorm : forall c,
             process_transcript (lower_window self) (lower c)
             = (fst (process_transcript self c),
                lower_window (snd (process_transcript self c)))).
  { intros c. unfold process_transcript.
    rewrite truthy_lower. cbn [lower_window target_phrases context_window
                               transcript_history detected_phrases].
    destruct (negb (truthy c) || _); [reflexivity|].
    rewrite <- deque_append_map, combined_text_lower.
    destruct (check_phrases _ _ _) as [detected new_detections].
    reflexivity. }
  split; [apply Hnorm|].
  intros chunk' _ Heq.
  pose proof (Hnorm chunk') as H1. pose proof (Hnorm chunk) as H2.
  rewrite Heq, H2 in H1. now injection H1.
Qed.

(** "BREAKING News today" and "breaking NEWS TODAY" after "Good
    evening": the same phrases. *)
Lemma detection_ignores_case_witness :
  fst (process_transcript
         (snd (process_transcript (init ["Breaking news"; "weather"] 5)
                                  "Good evening"))
         "breaking NEWS TODAY")
  = fst (process_transcript
           (snd (process_transcript (init ["Breaking news"; "weather"] 5)
                                    "Good evening"))
           "BREAKING News today").
Proof.
  apply (proj2 (detection_ignores_case
                  (snd (process_transcript
                          (init ["Breaking news"; "weather"] 5)
                          "Good evening"))
                  "BREAKING News today"
                  ltac:(repeat constructor)
                  ltac:(repeat constructor)
                  eq_refl)).
  - reflexivity.
  - reflexivity.
Defined.




End DetectorRunFacts.

(** ** Screenshot files *)

Section ScreenshotFacts.
Import PyStr ScreenshotCapturer CaptureFiles.

Lemma take_tag_chars (n : nat) (s : string) :
  tag_chars s = true -> tag_chars (take n s) = true.
Proof.
  unfold take. revert s. induction n as [|n IH]; intros [|c s]; simpl;
    try reflexivity.
  rewrite !andb_true_iff. intros [Hc Hs]. split; [exact Hc | now apply IH].
Qed.

Lemma clean_tag_chars (phrase : string) : tag_chars (clean phrase) = true.
Proof.
  induction phrase as [|c p IH]; simpl; [reflexivity|].
  rewrite IH, andb_true_r. unfold tag_char.
  destruct (is_alnum c) eqn:Hc; [now rewrite Hc | reflexivity].
Qed.

Lemma clean_length (phrase : string) :
  String.length (clean phrase) = String.length phrase.
Proof.
  induction phrase as [|c p IH]; simpl; [reflexivity | now rewrite IH].
Qed.

Lemma take_length_min (n : nat) (s : string) :
  String.length (take n s) = Nat.min n (String.length s).
Proof.
  unfold take. revert s. induction n as [|n IH]; intros [|c s]; simpl;
    try reflexivity.
  now rewrite IH.
Qed.

Lemma get_take (n i : nat) (s : string) :
  i < n -> String.get i (take n s) = String.get i s.
Proof.
  unfold take. revert i s. induction n as [|n IH]; intros i s Hi; [lia|].
  destruct s as [|c s]; [reflexivity|]. simpl.
  destruct i as [|i]; [reflexivity|]. apply IH. lia.
Qed.

Lemma get_clean (i : nat) (p : string) (c : ascii) :
  String.get i p = Some c ->
  String.get i (clean p) = Some (if is_alnum c then c else "_"%char).
Proof.
  revert i. induction p as [|d p IH]; intros i; [discriminate|].
  destruct i as [|i]; simpl.
  - now intros [= ->].
  - apply IH.
Qed.

Lemma get_tag_chars (s : string) (i : nat) (c : ascii) :
  tag_chars s = true -> String.get i s = Some c -> tag_char c = true.
Proof.
  revert i. induction s as [|d s IH]; intros i Htag; [discriminate|].
  simpl in Htag. apply andb_true_iff in Htag. destruct Htag as [Hd Hs].
  destruct i as [|i]; simpl.
  - now intros [= <-].
  - now apply IH.
Qed.

(** X7.  For an ASCII phrase, the part of a screenshot's file name that
    comes from the phrase is an underscore followed by the phrase, each
    character that is not a letter or a digit replaced by an underscore,
    the whole cut after 50 characters.  It is made of letters, digits and
    underscores only, so it holds no path separator and no dot.  Without
    a phrase, or for the empty phrase, it is empty. *)
Theorem phrase_tag_is_safe (p : string) :
  isascii p = true ->
  p <> "" ->
  String.length (phrase_tag (Some p)) = Nat.min 50 (S (String.length p))
  /\ String.get 0 (phrase_tag (Some p)) = Some "_"%char
  /\ (forall i c,
        S i < 50 -> String.get i p = Some c ->
        String.get (S i) (phrase_tag (Some p))
        = Some (if is_alnum c then c else "_"%char))
  /\ tag_chars (phrase_tag (Some p)) = true
  /\ (forall i,
        String.get i (phrase_tag (Some p)) <> Some "/"%char
        /\ String.get i (phrase_tag (Some p)) <> Some "."%char)
  /\ phrase_tag None = ""
  /\ phrase_tag (Some "") = "".
Proof.
  intros _ Hne. destruct p as [|c0 p0]; [congruence|].
  change (phrase_tag (Some (String c0 p0)))
    with (take 50 (String "_" (clean (String c0 p0)))).
  assert (Htag : tag_chars (take 50 (String "_" (clean (String c0 p0))))
                 = true).
  { apply take_tag_chars.
    apply (clean_tag_chars (String "_" (String c0 p0))). }
  split; [|split; [|split; [|split; [exact Htag | split]]]].
  - rewrite take_length_min. cbn [String.length].
    now rewrite clean_length.
  - reflexivity.
  - intros i c Hi Hget. rewrite get_take by exact Hi.
    cbn [String.get]. now apply get_clean.
  - intros i. split; intros Hget;
      apply (get_tag_chars _ _ _ Htag) in Hget; discriminate Hget.
  - split; reflexivity.
Qed.

(** The tag of "Breaking news!" and of a phrase of sixty letters. *)
Lemma phrase_tag_is_safe_witness :
  String.length (phrase_tag (Some "Breaking news!")) = 15
  /\ String.get 9 (phrase_tag (Some "Breaking news!")) = Some "_"%char
  /\ String.length
       (phrase_tag
          (Some "breaking news from the capital city: the vote is tonight"))
     = 50.
Proof.
  split; [|split].
  - apply (proj1 (phrase_tag_is_safe "Breaking news!" eq_refl
                    ltac:(discriminate))).
  - apply (proj1 (proj2 (proj2 (phrase_tag_is_safe "Breaking news!"
                                  eq_refl ltac:(discriminate))))
             8 " "%char); [lia | reflexivity].
  - apply (proj1 (phrase_tag_is_safe
                    "breaking news from the capital city: the vote is tonight"
                    eq_refl ltac:(discriminate))).
Defined.

(** X8.  A capture touches no file but the one whose path it computes,
    and never the output directory or the interval.  A capture that is
    not stopped by the interval check restarts the interval and returns
    the path unless the write raises; the frame is saved only when the
    write was really made, so a returned path is no proof of a file: when
    [cv2.imwrite] reports a failure the path is returned and nothing is
    saved.  A capture that is stopped returns nothing and changes
    nothing. *)
Theorem capture_screenshot_effect {frame : Type} (self : t frame)
    (current_time : Q) (timestamp : string) (write : image_write)
    (fr : frame) (phrase : option string) (throttle : bool) :
  let res := capture_screenshot self current_time timestamp write fr
                                phrase throttle in
  let path := path_join (output_dir self)
                ("screenshot_" ++ timestamp ++ phrase_tag phrase
                 ++ ".jpg")%string in
  output_dir (snd res) = output_dir self
  /\ min_capture_interval (snd res) = min_capture_interval self
  /\ (forall other, other <> path ->
        saved (snd res) !! other = saved self !! other)
  /\ (throttle = false \/ passes self current_time = true ->
      last_capture_time (snd res) = current_time
      /\ fst res = (match write with
                    | ImageWriteRaises => None
                    | _ => Some path
                    end)
      /\ saved (snd res) = (match write with
                            | ImageWritten => <[path := fr]> (saved self)
                            | _ => saved self
                            end))
  /\ (throttle = true -> passes self current_time = false ->
      res = (None, self)).
Proof.
  intros res path. subst res path.
  unfold capture_screenshot, passes.
  destruct throttle;
    destruct (Qlt_bool (current_time - last_capture_time self)
                       (min_capture_interval self));
    destruct write; cbn;
    (split; [reflexivity|]); (split; [reflexivity|]);
    (split; [intros other Hother;
             rewrite ?lookup_insert_ne by congruence; reflexivity|]);
    (split; [intros [H | H]; try discriminate H; repeat split|]);
    intros H1 H2; try discriminate H1; try discriminate H2; reflexivity.
Qed.
End ScreenshotFacts.

(** ** Using the resolved source *)

Section StreamUseFacts.
Import PyStr EnhancedYouTubeStream StreamUse.

Lemma string_of_snoc (l : list ascii) (c : ascii) (s : string) :
  (string_of_list_ascii (l ++ [c]) ++ s)%string
  = (string_of_list_ascii l ++ String c s)%string.
Proof.
  induction l as [|a l IH]; [reflexivity|].
  change (String a (string_of_list_ascii (l ++ [c]) ++ s)%string
          = String a (string_of_list_ascii l ++ String c s)%string).
  now f_equal.
Qed.

Lemma append_empty_r (s : string) : (s ++ "")%string = s.
Proof.
  induction s as [|a s IH]; [reflexivity|].
  change (String a (s ++ "")%string = String a s). now f_equal.
Qed.

Lemma contains_slash_cons (c : ascii) (s : string) :
  contains "/" (String c s) = Ascii.eqb c "/" || contains "/" s.
Proof.
  rewrite (contains_unfold "/" (String c s)).
  change (String.prefix "/" (String c s))
    with (if ascii_dec "/" c then String.prefix "" s else false).
  destruct (ascii_dec "/" c) as [<- | Hne].
  - rewrite Ascii.eqb_refl. now destruct s.
  - assert (Hc : Ascii.eqb c "/" = false).
    { apply Ascii.eqb_neq. congruence. }
    now rewrite Hc.
Qed.

Lemma last_segment_from_no_slash (tail : string) :
  forall cur,
    contains "/" tail = false ->
    last_segment_from cur tail
    = (string_of_list_ascii (rev cur) ++ tail)%string.
Proof.
  induction tail as [|c tail IH]; intros cur Hno; simpl.
  - now rewrite append_empty_r.
  - rewrite contains_slash_cons in Hno.
    apply orb_false_iff in Hno. destruct Hno as [Hc Htail].
    rewrite Hc, IH by exact Htail. simpl. apply string_of_snoc.
Qed.

Lemma last_segment_from_slash (base tail : string) :
  forall cur,
    contains "/" tail = false ->
    last_segment_from cur (base ++ String "/" tail) = tail.
Proof.
  induction base as [|c base IH]; intros cur Hno; simpl.
  - now rewrite last_segment_from_no_slash.
  - destruct (Ascii.eqb c "/"); now apply IH.
Qed.

(** X9.  On a URL that mentions youtu.be the video id is whatever follows
    the last slash: a query string stays in the id, a URL that ends in a
    slash has the empty id, and the [v] parameter is not looked at. *)
Theorem short_url_video_id (base tail : string) (query_v : option string) :
  contains "youtu.be" (base ++ String "/" tail) = true ->
  contains "/" tail = false ->
  _extract_video_id (base ++ String "/" tail) query_v = Some tail.
Proof.
  intros Hshort Hno. unfold _extract_video_id, last_segment.
  now rewrite Hshort, last_segment_from_slash.
Qed.

(** A short link with a time offset: the offset stays in the id. *)
Lemma short_url_video_id_witness :
  _extract_video_id "https://youtu.be/dQw4w9WgXcQ?t=42" (Some "ignored")
  = Some "dQw4w9WgXcQ?t=42".
Proof.
  apply (short_url_video_id "https://youtu.be" "dQw4w9WgXcQ?t=42");
    reflexivity.
Defined.

(** X10.  [YouTubeLiveProcessor.setup] succeeds only through yt-dlp or
    streamlink: when yt-dlp resolved the source, gave a stream URL and the
    capture opens, or when yt-dlp failed, streamlink resolved the source
    and its capture opens.  A source resolved by direct extraction alone
    never starts: the setup fails, and [extract_audio] has nothing to
    extract with. *)
Theorem processor_setup_needs_capture {capture : Type}
    (ytdlp streamlink direct : strategy_body) (self : handle capture)
    (by_ytdlp by_streamlink : option capture) :
  let r1 := ytdlp (url (stream self)) (found (stream self)) in
  let r2 := streamlink (url (stream self)) (snd r1) in
  let r3 := direct (url (stream self)) (snd r2) in
  let res := processor_setup ytdlp streamlink direct self
                             by_ytdlp by_streamlink in
  fst res
  = (succeeded (fst r1) && given (stream_url (snd r1))
     && match by_ytdlp with Some _ => true | None => false end)
    || (negb (succeeded (fst r1)) && succeeded (fst r2)
        && match by_streamlink with Some _ => true | None => false end)
  /\ (succeeded (fst r1) = false -> succeeded (fst r2) = false ->
      succeeded (fst r3) = true ->
      fst res = false
      /\ pinned "direct_extraction" (stream (snd res)) = true
      /\ forall a b, extract_audio (stream (snd res)) a b = None)
  /\ (fst res = true -> cap (snd res) <> None).
Proof.
  unfold processor_setup, setup, _setup_with_ytdlp, _setup_with_streamlink,
    _setup_with_direct_extraction, attempt, start_video_capture,
    extract_audio, pinned.
  cbn [url found logged with_found].
  destruct (ytdlp (url (stream self)) (found (stream self))) as [o1 f1].
  destruct o1 as [| |e1];
    cbn [url found logged with_found with_strategy fst snd];
    destruct (streamlink (url (stream self)) f1) as [o2 f2];
    destruct o2 as [| |e2];
    cbn [url found logged with_found with_strategy fst snd];
    destruct (direct (url (stream self)) f2) as [o3 f3];
    destruct o3 as [| |e3];
    cbn [url found log successful_strategy logged with_found
         with_strategy fst snd succeeded orb andb negb stream cap
         String.eqb Ascii.eqb Bool.eqb];
    try destruct (given (stream_url f1));
    destruct by_ytdlp; destruct by_streamlink;
    cbn [url found log successful_strategy logged with_found
         with_strategy fst snd succeeded orb andb negb stream cap
         String.eqb Ascii.eqb Bool.eqb];
    repeat split; intros; try discriminate; try reflexivity.
Qed.

(** X11.  [release] lets go of the open capture once and forgets it: the
    capture is [None] afterwards, a second [release] releases nothing
    more, and, unless removing the temporary audio file failed the first
    time, a second [release] changes nothing at all. *)
Theorem release_is_idempotent {capture : Type} (self : handle capture)
    (remove_fails again_fails : bool) :
  cap (release self remove_fails) = None
  /\ released (release self remove_fails)
     = released self ++ match cap self with Some c => [c] | None => [] end
  /\ released (release (release self remove_fails) again_fails)
     = released (release self remove_fails)
  /\ stream (release self remove_fails) = stream self
  /\ (remove_fails = false ->
      release (release self remove_fails) again_fails
      = release self remove_fails).
Proof.
  assert (Hgone : forall (f : string) (e : gset string),
             truthy f && bool_decide (f ∈ e ∖ {[ f ]}) = false).
  { intros f e.
    assert (Hn : f ∉ e ∖ {[ f ]})
      by (rewrite elem_of_difference, elem_of_singleton; tauto).
    rewrite (bool_decide_eq_false_2 _ Hn). apply andb_false_r. }
  unfold release, stop_video_capture.
  destruct self as [s c a r e].
  cbn [cap audio_file released existing stream].
  assert (Hcap : forall x : option capture,
             r ++ match x with Some c0 => [c0] | None => [] end
             = match x with Some c0 => r ++ [c0] | None => r end).
  { intros [x|]; [reflexivity | apply app_nil_r]. }
  rewrite Hcap.
  destruct c as [c|]; cbn [cap audio_file released existing stream];
    (destruct a as [f|]; cbn [cap audio_file released existing stream];
     [destruct (truthy f && bool_decide (f ∈ e)) eqn:Hdel;
      [destruct remove_fails;
       cbn [cap audio_file released existing stream];
       [rewrite Hdel; destruct again_fails;
        cbn [cap audio_file released existing stream];
        repeat (split; [reflexivity|]); discriminate
       |rewrite Hgone; repeat (split; [reflexivity|]); reflexivity]
      |cbn [cap audio_file released existing stream]; rewrite Hdel;
       repeat (split; [reflexivity|]); reflexivity]
     |repeat (split; [reflexivity|]); reflexivity]).
Qed.
End StreamUseFacts.

(** ** Strings *)

Section StringFacts.
#[local] Open Scope string_scope.

Lemma append_cons (c : ascii) (a b : string) :
  String c a ++ b = String c (a ++ b).
Proof. reflexivity. Qed.


Lemma string_append_assoc (a b c : string) : (a ++ b) ++ c = a ++ (b ++ c).
Proof.
  induction a as [|x a IH]; [reflexivity|].
  rewrite !append_cons. now rewrite IH.
Qed.



End StringFacts.

(** ** The vision analyzer *)

Section VisionFacts.
Import PyStr VisionAnalyzer.
#[local] Open Scope string_scope.



Lemma serve_cons (self : t) (r : request) (rs : list request) :
  serve self (r :: rs)
  = (fst (serve_one self r) :: fst (serve (snd (serve_one self r)) rs),
     snd (serve (snd (serve_one self r)) rs)).
Proof.
  simpl. destruct (serve_one self r) as [out self']. simpl.
  now destruct (serve self' rs).
Qed.

Lemma serve_one_effect (self : t) (r : request) :
  match fst (serve_one self r) with
  | Some a =>
      file_exists r = true /\ answer r = Some a
      /\ analysis_history (snd (serve_one self r))
         = (analysis_history self
            ++ [{| timestamp := now r; image_path := path r;
                   prompt := context_prompt (transcript r)
                                            (detected_phrase r);
                   analysis := a |}])%list
  | None =>
      (file_exists r = false \/ answer r = None)
      /\ snd (serve_one self r) = self
  end.
Proof.
  unfold serve_one, analyze_image_with_context, analyze_image.
  destruct (file_exists r); simpl; [|tauto].
  destruct (answer r) as [a|]; simpl; [|tauto].
  repeat split.
Qed.

(** X13.  The history of the analyzer is the record of its successes: a
    request whose image file is missing, or whose call fails, returns
    nothing and leaves the history as it was; every other request appends
    one entry that holds the result it returns, the image path and the
    prompt built from the transcript and the phrase.  So the analyses in
    the history are the results returned so far, in order. *)
Theorem analysis_history_records_successes (self : t) (rs : list request) :
  map analysis (get_analysis_history (snd (serve self rs)))
  = (map analysis (get_analysis_history self)
     ++ answers (fst (serve self rs)))%list
  /\ List.length (get_analysis_history (snd (serve self rs)))
     = List.length (get_analysis_history self)
       + List.length (answers (fst (serve self rs)))
  /\ (forall r,
        match fst (serve_one self r) with
        | Some a =>
            file_exists r = true /\ answer r = Some a
            /\ get_analysis_history (snd (serve_one self r))
               = (get_analysis_history self
                  ++ [{| timestamp := now r; image_path := path r;
                         prompt := context_prompt (transcript r)
                                                  (detected_phrase r);
                         analysis := a |}])%list
        | None =>
            (file_exists r = false \/ answer r = None)
            /\ snd (serve_one self r) = self
        end).
Proof.
  unfold get_analysis_history.
  split; [|split; [|apply serve_one_effect]].
  - revert self. induction rs as [|r rs IH]; intros self.
    + simpl. now rewrite app_nil_r.
    + rewrite serve_cons. cbn [fst snd]. rewrite IH.
      pose proof (serve_one_effect self r) as H.
      destruct (fst (serve_one self r)) as [a|].
      * destruct H as [_ [_ ->]]. rewrite map_app. simpl.
        now rewrite <- app_assoc.
      * destruct H as [_ ->]. reflexivity.
  - revert self. induction rs as [|r rs IH]; intros self.
    + simpl. lia.
    + rewrite serve_cons. cbn [fst snd]. rewrite IH.
      pose proof (serve_one_effect self r) as H.
      destruct (fst (serve_one self r)) as [a|].
      * destruct H as [_ [_ ->]]. rewrite length_app. simpl. lia.
      * destruct H as [_ ->]. simpl. lia.
Qed.
End VisionFacts.

(** ** Trimmed text and the operator's phrases *)

Section TrimFacts.
Import PyStr PhraseInput.
#[local] Open Scope string_scope.

Lemma lstrip_starts (s : string) : starts_with_space (lstrip s) = false.
Proof.
  induction s as [|c s IH]; simpl; [reflexivity|].
  destruct (is_space c) eqn:Hc; [exact IH | simpl; exact Hc].
Qed.

Lemma lstrip_id (s : string) : starts_with_space s = false -> lstrip s = s.
Proof. destruct s as [|c s]; simpl; [reflexivity | now intros ->]. Qed.

Lemma rstrip_ends (s : string) : ends_with_space (rstrip s) = false.
Proof.
  induction s as [|c s IH]; [reflexivity|].
  simpl rstrip. destruct (rstrip s) as [|d r] eqn:Hr.
  - destruct (is_space c) eqn:Hc; simpl; [reflexivity | exact Hc].
  - exact IH.
Qed.

Lemma rstrip_starts (s : string) :
  starts_with_space s = false -> starts_with_space (rstrip s) = false.
Proof.
  destruct s as [|c s]; [reflexivity|]. simpl. intros Hc.
  destruct (rstrip s); [rewrite Hc|]; simpl; exact Hc.
Qed.

Lemma rstrip_id (s : string) : ends_with_space s = false -> rstrip s = s.
Proof.
  induction s as [|c s IH]; [reflexivity|].
  destruct s as [|d s'].
  - simpl. now intros ->.
  - intros Hends. change (ends_with_space (String d s') = false) in Hends.
    simpl rstrip in *. rewrite (IH Hends). reflexivity.
Qed.

Lemma strip_trimmed (s : string) : trimmed (strip s) = true.
Proof.
  unfold trimmed, strip.
  now rewrite rstrip_starts, rstrip_ends by apply lstrip_starts.
Qed.

Lemma trimmed_strip_id (s : string) : trimmed s = true -> strip s = s.
Proof.
  unfold trimmed, strip. rewrite andb_true_iff, !negb_true_iff.
  intros [Hs He]. now rewrite (lstrip_id _ Hs), (rstrip_id _ He).
Qed.

Lemma strip_idempotent (s : string) : strip (strip s) = strip s.
Proof. apply trimmed_strip_id, strip_trimmed. Qed.
End TrimFacts.

Section PhraseInputFacts.
Import PyStr PhraseInput.
#[local] Open Scope string_scope.

Lemma has_char_append (c : ascii) (a b : string) :
  has_char c (a ++ b) = has_char c a || has_char c b.
Proof.
  induction a as [|d a IH]; [reflexivity|].
  rewrite append_cons. simpl. now rewrite IH, orb_assoc.
Qed.

Lemma has_char_of_list (c : ascii) (l : list ascii) :
  has_char c (string_of_list_ascii l)
  = existsb (fun d => Ascii.eqb d c) l.
Proof. induction l as [|d l IH]; simpl; [reflexivity | now rewrite IH]. Qed.

Lemma existsb_rev (f : ascii -> bool) (l : list ascii) :
  existsb f (rev l) = existsb f l.
Proof.
  induction l as [|d l IH]; [reflexivity|].
  simpl. rewrite existsb_app, IH. simpl.
  now rewrite orb_false_r, orb_comm.
Qed.

Lemma split_on_from_clean (sep : ascii) (s : string) :
  forall cur,
    existsb (fun d => Ascii.eqb d sep) cur = false ->
    Forall (fun p => has_char sep p = false) (split_on_from sep cur s).
Proof.
  induction s as [|c s IH]; intros cur Hcur; simpl.
  - constructor; [|constructor].
    now rewrite has_char_of_list, existsb_rev.
  - destruct (Ascii.eqb c sep) eqn:Hc.
    + constructor; [now rewrite has_char_of_list, existsb_rev|].
      now apply IH.
    + apply IH. simpl. now rewrite Hc.
Qed.

Lemma has_char_lstrip (c : ascii) (s : string) :
  has_char c s = false -> has_char c (lstrip s) = false.
Proof.
  induction s as [|d s IH]; simpl; [reflexivity|].
  intros H. apply orb_false_iff in H. destruct H as [Hd Hs].
  destruct (is_space d); [now apply IH | simpl; now rewrite Hd, Hs].
Qed.

Lemma has_char_rstrip (c : ascii) (s : string) :
  has_char c s = false -> has_char c (rstrip s) = false.
Proof.
  induction s as [|d s IH]; [reflexivity|]. simpl.
  intros H. apply orb_false_iff in H. destruct H as [Hd Hs].
  specialize (IH Hs). destruct (rstrip s) as [|e r].
  - destruct (is_space d); simpl; [reflexivity | now rewrite Hd].
  - change (has_char c (String d (String e r)))
      with (Ascii.eqb d c || has_char c (String e r)).
    now rewrite Hd, IH.
Qed.

Lemma parse_phrases_clean (phrases p : string) :
  In p (parse_phrases phrases) -> clean_phrase p = true.
Proof.
  unfold parse_phrases. rewrite in_map_iff.
  intros [q [<- Hq]]. apply filter_In in Hq. destruct Hq as [Hq Hne].
  unfold clean_phrase. rewrite Hne, strip_trimmed. simpl.
  apply negb_true_iff. unfold strip.
  apply has_char_rstrip, has_char_lstrip.
  pose proof (split_on_from_clean "," phrases [] eq_refl) as Hall.
  rewrite Forall_forall in Hall. now apply Hall.
Qed.

Lemma split_on_from_no_sep (sep : ascii) (p : string) :
  forall cur,
    has_char sep p = false ->
    split_on_from sep cur p = [string_of_list_ascii (rev cur) ++ p].
Proof.
  induction p as [|c p IH]; intros cur Hp; simpl.
  - now rewrite append_empty_r.
  - simpl in Hp. apply orb_false_iff in Hp. destruct Hp as [Hc Hp].
    rewrite Hc, IH by exact Hp. simpl. now rewrite string_of_snoc.
Qed.

Lemma split_on_from_sep (sep : ascii) (p rest : string) :
  forall cur,
    has_char sep p = false ->
    split_on_from sep cur (p ++ String sep rest)
    = (string_of_list_ascii (rev cur) ++ p) :: split_on_from sep [] rest.
Proof.
  induction p as [|c p IH]; intros cur Hp.
  - change ("" ++ String sep rest) with (String sep rest). simpl.
    now rewrite Ascii.eqb_refl, append_empty_r.
  - simpl in Hp. apply orb_false_iff in Hp. destruct Hp as [Hc Hp].
    rewrite append_cons. simpl. rewrite Hc, IH by exact Hp.
    simpl. now rewrite string_of_snoc.
Qed.

Lemma split_join_clean (ps : list string) :
  forall p cur,
    Forall (fun q => has_char "," q = false) (p :: ps) ->
    split_on_from "," cur (join ", " (p :: ps))
    = (string_of_list_ascii (rev cur) ++ p) :: map (String " ") ps.
Proof.
  unfold join. induction ps as [|q ps IH]; intros p cur Hall.
  - simpl. apply split_on_from_no_sep. now inversion Hall.
  - change (String.concat ", " (p :: q :: ps))
      with (p ++ String "," (String " " (String.concat ", " (q :: ps)))).
    inversion Hall as [|? ? Hp Hrest]; subst.
    rewrite split_on_from_sep by exact Hp. f_equal.
    change (split_on_from "," [] (String " " (String.concat ", " (q :: ps))))
      with (split_on_from "," [" "%char] (String.concat ", " (q :: ps))).
    rewrite (IH q [" "%char] Hrest). reflexivity.
Qed.

Lemma clean_phrase_facts (p : string) :
  clean_phrase p = true ->
  truthy p = true /\ strip p = p /\ has_char "," p = false
  /\ strip (String " " p) = p.
Proof.
  unfold clean_phrase. rewrite !andb_true_iff, negb_true_iff.
  intros [[Hne Htrim] Hcomma].
  assert (Hstrip : strip p = p) by now apply trimmed_strip_id.
  split; [exact Hne|]. split; [exact Hstrip|]. split; [exact Hcomma|].
  exact Hstrip.
Qed.

Lemma parse_join_clean (ps : list string) :
  Forall (fun p => clean_phrase p = true) ps ->
  parse_phrases (join ", " ps) = ps.
Proof.
  intros Hall. destruct ps as [|p ps]; [reflexivity|].
  unfold parse_phrases, split_on.
  rewrite split_join_clean.
  - inversion Hall as [|? ? Hp Hps]; subst.
    change (string_of_list_ascii (rev []) ++ p) with p.
    destruct (clean_phrase_facts p Hp) as [Hne [Hstrip _]].
    simpl. rewrite Hstrip, Hne. simpl. rewrite Hstrip. f_equal.
    clear Hp Hne Hstrip Hall. induction Hps as [|q qs Hq Hqs IH];
      [reflexivity|].
    destruct (clean_phrase_facts q Hq) as [Hne [_ [_ Hsp]]].
    simpl. rewrite Hsp, Hne. simpl. rewrite Hsp. now f_equal.
  - eapply Forall_impl; [|exact Hall].
    intros q Hq. now apply clean_phrase_facts.
Qed.

(** X15.  The target phrases read from the operator's comma-separated
    list are clean: none is empty, none has white space at either end,
    none holds a comma; a list with nothing but commas and white space
    gives no phrase.  Written out with [", "] between them, as the final
    summary prints them, and read again, they give the same list. *)
Theorem parsed_phrases_are_clean (phrases : string) :
  Forall (fun p => p <> "" /\ strip p = p /\ has_char "," p = false)
         (parse_phrases phrases)
  /\ parse_phrases (join ", " (parse_phrases phrases))
     = parse_phrases phrases
  /\ parse_phrases "" = []
  /\ get_phrases phrases = parse_phrases (strip phrases).
Proof.
  split; [|split; [|split]].
  - apply Forall_forall. intros p Hp.
    apply parse_phrases_clean, clean_phrase_facts in Hp.
    destruct Hp as [Hne [Hstrip [Hcomma _]]].
    apply truthy_nonempty in Hne. tauto.
  - apply parse_join_clean, Forall_forall.
    intros p. apply parse_phrases_clean.
  - reflexivity.
  - unfold get_phrases. destruct (truthy (strip phrases)) eqn:Ht;
      [reflexivity|].
    apply truthy_empty in Ht. now rewrite Ht.
Qed.
End PhraseInputFacts.

(** ** The run of the processor *)

Section ProcessorRunFacts.
Import PyStr PhraseInput YouTubeLiveProcessor ProcessorRun.
#[local] Open Scope string_scope.

(** Reading back the digits that [str] writes. *)
Lemma leading_number_from_digits (d : Decimal.uint) :
  forall acc rest,
    leading_number_from acc (NilEmpty.string_of_uint d ++ String "_" rest)
    = Nat.of_uint_acc d acc.
Proof.
  induction d; intros acc rest; simpl NilEmpty.string_of_uint;
    [reflexivity| | | | | | | | | |];
    rewrite append_cons; simpl leading_number_from;
    rewrite IHd; simpl Nat.of_uint_acc;
    rewrite !Nat.tail_mul_spec; f_equal; lia.
Qed.

Lemma leading_number_of_nat (n : nat) (rest : string) :
  leading_number (of_nat n ++ String "_" rest) = n.
Proof.
  unfold leading_number, of_nat.
  rewrite <- (DecimalNat.Unsigned.of_to n) at 2. unfold Nat.of_uint.
  destruct (Nat.to_uint n) eqn:Hu;
    try (unfold NilZero.string_of_uint; apply leading_number_from_digits).
  reflexivity.
Qed.

Lemma leading_number_zeros (k : nat) (s : string) :
  leading_number (zeros k ++ s) = leading_number s.
Proof.
  unfold leading_number. induction k as [|k IH]; [reflexivity|].
  simpl zeros. rewrite append_cons. simpl leading_number_from. exact IH.
Qed.

Lemma leading_number_03d (n : nat) (rest : string) :
  leading_number (of_nat_03d n ++ String "_" rest) = n.
Proof.
  unfold of_nat_03d. rewrite string_append_assoc, leading_number_zeros.
  apply leading_number_of_nat.
Qed.

(** Segment files of different numbers have different paths. *)
Lemma segment_path_number (self : t) (n m : nat) (now now' : clock) :
  segment_path self n now = segment_path self m now' -> n = m.
Proof.
  unfold segment_path. intros Heq.
  destruct (string_dec
              ("segment_" ++ of_nat_03d n ++ "_" ++ now "%Y%m%d_%H%M%S"
               ++ ".txt")
              ("segment_" ++ of_nat_03d m ++ "_" ++ now' "%Y%m%d_%H%M%S"
               ++ ".txt")) as [Hsame | Hdiff].
  - apply (append_cancel_l "segment_") in Hsame.
    apply (f_equal leading_number) in Hsame.
    change ("_" ++ ?x) with (String "_" x) in Hsame.
    now rewrite !leading_number_03d in Hsame.
  - exfalso. revert Heq. apply path_join_neq;
      [reflexivity | reflexivity | exact Hdiff].
Qed.

(** What a turn of the loop does: nothing, or it restarts the timer, after
    saving the chunk when the transcription gave one. *)
Lemma turn_on_cases (self : t) (k : tick) :
  turn_on self k = self
  \/ (_process_audio_chunk_direct (answer k) = None
      /\ turn_on self k = set_last_extraction_time (at_time k) self)
  \/ (exists chunk,
        _process_audio_chunk_direct (answer k) = Some chunk
        /\ chunk <> "" /\ trimmed chunk = true
        /\ turn_on self k
           = set_last_extraction_time (at_time k)
               (_save_transcript_chunk self (now k) (segment_write k)
                                       (full_write k) chunk)).
Proof.
  unfold turn_on, turn, cycle.
  destruct (Qle_bool 30 (at_time k - last_extraction_time self));
    [|now left].
  destruct (audio_file k) as [path|]; [|now left].
  destruct (truthy path); [|now left].
  destruct (_process_audio_chunk_direct (answer k)) as [chunk|] eqn:Hc;
    [|right; left; tauto].
  assert (Hchunk : truthy chunk = true /\ trimmed chunk = true).
  { destruct (answer k) as [[text|]|e]; try discriminate.
    simpl in Hc. rewrite strip_truthy in Hc.
    destruct (truthy (strip text)) eqn:Ht; [|discriminate].
    injection Hc as <-. split; [exact Ht | apply strip_trimmed]. }
  destruct Hchunk as [Hne Htrim]. rewrite Hne.
  right. right. exists chunk. apply truthy_nonempty in Hne. tauto.
Qed.

(** X14.  Whatever the transcription backend answers, the text that a turn
    of the loop counts as a chunk is not empty and has no white space at
    either end, and the counter advances by exactly one for it.  The
    running transcript grows by exactly one time-stamped line holding the
    chunk when the segment record was written, and stays as it was when
    that write failed: the counter is then ahead of the transcript. *)
Theorem saved_chunk_is_trimmed (self : t) (k : tick) :
  transcript_counter (turn_on self k) <> transcript_counter self ->
  exists chunk,
    _process_audio_chunk_direct (answer k) = Some chunk
    /\ chunk <> "" /\ strip chunk = chunk
    /\ starts_with_space chunk = false /\ ends_with_space chunk = false
    /\ transcript_counter (turn_on self k) = transcript_counter self + 1
    /\ full_transcript (turn_on self k)
       = if completed (segment_write k)
         then full_transcript self ++ nl ++ "["
              ++ line_clock (now k) "%H:%M:%S" ++ "] " ++ chunk
         else full_transcript self.
Proof.
  intros Hchanged.
  destruct (turn_on_cases self k) as [Heq | [[_ Heq] | [chunk H]]].
  - rewrite Heq in Hchanged. congruence.
  - rewrite Heq in Hchanged. simpl in Hchanged. congruence.
  - destruct H as [Hc [Hne [Htrim Heq]]]. exists chunk.
    split; [exact Hc|]. split; [exact Hne|].
    split; [now apply trimmed_strip_id|].
    unfold trimmed in Htrim. apply andb_true_iff in Htrim.
    rewrite !negb_true_iff in Htrim.
    split; [tauto|]. split; [tauto|].
    destruct (_save_transcript_chunk_spec self (now k) (segment_write k)
                (full_write k) chunk) as [Hcount [Hfull _]].
    rewrite Heq. unfold set_last_extraction_time.
    cbn [transcript_counter full_transcript].
    split; [exact Hcount | exact Hfull].
Qed.

(** The backend hears "  hello world  ": the line added holds
    "hello world"; and the same turn on a disk that refuses the segment
    file counts the chunk and adds no line. *)
Lemma saved_chunk_is_trimmed_witness :
  full_transcript
    (turn_on (init "https://youtu.be/x" [] "out" ∅)
       (mk_tick 100
                (at_once (clock_at ("2025", "01", "01") ("12", "00", "01")))
                (Some "chunk.mp3") (Heard (Some "  hello world  "))
                Written Written))
  = nl ++ "[12:00:01] hello world"
  /\ full_transcript
       (turn_on (init "https://youtu.be/x" [] "out" ∅)
          (mk_tick 100
                   (at_once (clock_at ("2025", "01", "01")
                                      ("12", "00", "01")))
                   (Some "chunk.mp3") (Heard (Some "  hello world  "))
                   OpenFails Written))
     = ""
  /\ transcript_counter
       (turn_on (init "https://youtu.be/x" [] "out" ∅)
          (mk_tick 100
                   (at_once (clock_at ("2025", "01", "01")
                                      ("12", "00", "01")))
                   (Some "chunk.mp3") (Heard (Some "  hello world  "))
                   OpenFails Written))
     = 1.
Proof.
  split; [|split].
  - destruct (saved_chunk_is_trimmed
                (init "https://youtu.be/x" [] "out" ∅)
                (mk_tick 100
                   (at_once (clock_at ("2025", "01", "01")
                                      ("12", "00", "01")))
                   (Some "chunk.mp3") (Heard (Some "  hello world  "))
                   Written Written))
      as [chunk [Hc [_ [_ [_ [_ [_ Hfull]]]]]]].
    + vm_compute. lia.
    + vm_compute in Hc. injection Hc as <-. exact Hfull.
  - destruct (saved_chunk_is_trimmed
                (init "https://youtu.be/x" [] "out" ∅)
                (mk_tick 100
                   (at_once (clock_at ("2025", "01", "01")
                                      ("12", "00", "01")))
                   (Some "chunk.mp3") (Heard (Some "  hello world  "))
                   OpenFails Written))
      as [chunk [_ [_ [_ [_ [_ [_ Hfull]]]]]]].
    + vm_compute. lia.
    + exact Hfull.
  - destruct (saved_chunk_is_trimmed
                (init "https://youtu.be/x" [] "out" ∅)
                (mk_tick 100
                   (at_once (clock_at ("2025", "01", "01")
                                      ("12", "00", "01")))
                   (Some "chunk.mp3") (Heard (Some "  hello world  "))
                   OpenFails Written))
      as [chunk [_ [_ [_ [_ [_ [Hcount _]]]]]]].
    + vm_compute. lia.
    + exact Hcount.
Defined.

(** [_save_transcript_chunk] keeps the URL, the directories, the phrases
    and the timer. *)
Lemma _save_transcript_chunk_frame (self : t) (now : readings)
    (sw fw : write_result) (chunk : string) :
  url (_save_transcript_chunk self now sw fw chunk) = url self
  /\ transcripts_dir (_save_transcript_chunk self now sw fw chunk)
     = transcripts_dir self
  /\ output_dir (_save_transcript_chunk self now sw fw chunk)
     = output_dir self
  /\ target_phrases (_save_transcript_chunk self now sw fw chunk)
     = target_phrases self
  /\ last_extraction_time (_save_transcript_chunk self now sw fw chunk)
     = last_extraction_time self.
Proof.
  unfold _save_transcript_chunk. destruct sw; destruct fw; repeat split.
Qed.

(** What a turn keeps of the processor and of the disk. *)
Lemma turn_on_frame (self : t) (k : tick) :
  url (turn_on self k) = url self
  /\ transcripts_dir (turn_on self k) = transcripts_dir self
  /\ output_dir (turn_on self k) = output_dir self
  /\ target_phrases (turn_on self k) = target_phrases self
  /\ transcript_counter self <= transcript_counter (turn_on self k)
     <= transcript_counter self + 1
  /\ forall path,
       path <> full_transcript_path self ->
       path <> segment_path self (transcript_counter self + 1)
                            (name_clock (now k)) ->
       files (turn_on self k) !! path = files self !! path.
Proof.
  destruct (turn_on_cases self k) as [-> | [[_ ->] | [chunk [_ [_ [_ ->]]]]]].
  - repeat split; try reflexivity; lia.
  - simpl. repeat split; try reflexivity; lia.
  - destruct (_save_transcript_chunk_spec self (now k) (segment_write k)
                (full_write k) chunk)
      as [Hcount [_ [_ [_ [_ [_ Hkeep]]]]]].
    destruct (_save_transcript_chunk_frame self (now k) (segment_write k)
                (full_write k) chunk) as [Hu [Hd [Ho [Ht _]]]].
    unfold set_last_extraction_time.
    cbn [url transcripts_dir output_dir target_phrases transcript_counter
         files].
    rewrite Hcount.
    split; [exact Hu|]. split; [exact Hd|]. split; [exact Ho|].
    split; [exact Ht|]. split; [lia | exact Hkeep].
Qed.

Lemma loop_frame (ticks : list tick) :
  forall self path,
    path <> full_transcript_path self ->
    (forall n now', transcript_counter self < n ->
                    path <> segment_path self n now') ->
    files (loop self ticks) !! path = files self !! path.
Proof.
  unfold loop. induction ticks as [|k ticks IH]; intros self path Hfull Hseg;
    [reflexivity|].
  simpl fold_left.
  destruct (turn_on_frame self k) as [_ [Hdir [_ [_ [Hcount Hkeep]]]]].
  rewrite IH.
  - apply Hkeep; [exact Hfull | apply Hseg; lia].
  - unfold full_transcript_path. now rewrite Hdir.
  - intros n now' Hn. unfold segment_path. rewrite Hdir.
    apply Hseg. lia.
Qed.

(** X16.  A segment record that was written stays as it is for the rest
    of the run, whatever happens to later writes: later turns write to
    other paths, because every chunk gets the next number, written or
    not, and the number is part of the file name. *)
Theorem segment_record_is_kept (self : t) (k : tick) :
  transcript_counter (turn_on self k) <> transcript_counter self ->
  segment_write k = Written ->
  exists chunk,
    _process_audio_chunk_direct (answer k) = Some chunk
    /\ forall ticks,
         files (loop (turn_on self k) ticks)
         !! segment_path self (transcript_counter self + 1)
                         (name_clock (now k))
         = Some (segment_record self (transcript_counter self + 1)
                                (record_clock (now k)) chunk).
Proof.
  intros Hchanged Hwritten.
  destruct (turn_on_frame self k) as [_ [Hdir _]].
  destruct (turn_on_cases self k) as [Heq | [[_ Heq] | [chunk H]]].
  - rewrite Heq in Hchanged. congruence.
  - rewrite Heq in Hchanged. simpl in Hchanged. congruence.
  - destruct H as [Hc [_ [_ Heq]]]. exists chunk. split; [exact Hc|].
    destruct (_save_transcript_chunk_spec self (now k) (segment_write k)
                (full_write k) chunk) as [Hcount [_ [Hseg _]]].
    assert (Hnext : transcript_counter (turn_on self k)
                    = transcript_counter self + 1).
    { rewrite Heq. exact Hcount. }
    intros ticks. rewrite loop_frame.
    + rewrite Heq. unfold set_last_extraction_time. cbn [files].
      exact (Hseg Hwritten).
    + unfold full_transcript_path. rewrite Hdir.
      apply segment_path_not_snapshot.
    + intros n now' Hn Hsame. rewrite Hnext in Hn.
      unfold segment_path in Hsame. rewrite Hdir in Hsame.
      pose proof (segment_path_number self _ _ _ _ Hsame) as Hnum. lia.
Qed.

(** Two chunks, the second on a disk that takes no write: the record of
    the first is still there. *)
Lemma segment_record_is_kept_witness :
  files
    (loop (init "https://youtu.be/x" [] "out" ∅)
       [mk_tick 100
                (at_once (clock_at ("2025", "01", "01") ("12", "00", "01")))
                (Some "a.mp3") (Heard (Some "first")) Written Written;
        mk_tick 130
                (at_once (clock_at ("2025", "01", "01") ("12", "00", "31")))
                (Some "b.mp3") (Heard (Some "second"))
                (WriteFails 3) OpenFails])
  !! "out/transcripts/segment_001_20250101_120001.txt"
  = Some (segment_record (init "https://youtu.be/x" [] "out" ∅) 1
            (clock_at ("2025", "01", "01") ("12", "00", "01")) "first").
Proof.
  destruct (segment_record_is_kept
              (init "https://youtu.be/x" [] "out" ∅)
              (mk_tick 100
                 (at_once (clock_at ("2025", "01", "01")
                                    ("12", "00", "01")))
                 (Some "a.mp3") (Heard (Some "first")) Written Written))
    as [chunk [Hc Hkept]].
  - vm_compute. lia.
  - reflexivity.
  - vm_compute in Hc. injection Hc as <-.
    exact (Hkept
             [mk_tick 130
                (at_once (clock_at ("2025", "01", "01")
                                   ("12", "00", "31")))
                (Some "b.mp3") (Heard (Some "second"))
                (WriteFails 3) OpenFails]).
Defined.






(** X18.  The loop extracts at most once per 30 seconds of the clock: a
    turn less than 30 seconds after the last extraction does nothing; a
    turn whose extraction returned audio restarts the 30 seconds, with or
    without a transcript; and a turn whose extraction failed leaves the
    processor as it was, timer included, so that the next turn extracts
    again whatever the time. *)
Theorem extraction_is_paced (self : t) (k : tick) :
  ((at_time k - last_extraction_time self < 30)%Q -> turn_on self k = self)
  /\ (StreamUse.given (audio_file k) = false -> turn_on self k = self)
  /\ ((30 <= at_time k - last_extraction_time self)%Q ->
      StreamUse.given (audio_file k) = true ->
      last_extraction_time (turn_on self k) = at_time k
      /\ forall k',
           (at_time k' - at_time k < 30)%Q ->
           turn_on (turn_on self k) k' = turn_on self k).
Proof.
  assert (Hearly : forall (s : t) (j : tick),
             (at_time j - last_extraction_time s < 30)%Q ->
             turn_on s j = s).
  { intros s j Hlt. unfold turn_on, turn.
    destruct (Qle_bool 30 (at_time j - last_extraction_time s)) eqn:Hle;
      [|reflexivity].
    apply Qle_bool_iff in Hle. now apply Qlt_not_le in Hlt. }
  split; [apply Hearly|]. split.
  - unfold turn_on, turn, cycle, StreamUse.given.
    destruct (Qle_bool _ _); [|reflexivity].
    destruct (audio_file k) as [path|]; [|reflexivity].
    now intros ->.
  - intros Hdue Hgiven.
    assert (Hlast : last_extraction_time (turn_on self k) = at_time k).
    { unfold turn_on, turn, cycle, StreamUse.given in *.
      apply Qle_bool_iff in Hdue. rewrite Hdue.
      destruct (audio_file k) as [path|]; [|discriminate].
      rewrite Hgiven. reflexivity. }
    split; [exact Hlast|].
    intros k' Hlt. apply Hearly. now rewrite Hlast.
Qed.

(** A turn at 100 s that extracts audio, and a turn ten seconds later. *)
Lemma extraction_is_paced_witness :
  turn_on
    (turn_on (init "https://youtu.be/x" [] "out" ∅)
       (mk_tick 100
                (at_once (clock_at ("2025", "01", "01") ("12", "00", "01")))
                (Some "a.mp3") (Heard (Some "first")) Written Written))
    (mk_tick 110
             (at_once (clock_at ("2025", "01", "01") ("12", "00", "11")))
             (Some "b.mp3") (Heard (Some "second")) Written Written)
  = turn_on (init "https://youtu.be/x" [] "out" ∅)
      (mk_tick 100
               (at_once (clock_at ("2025", "01", "01") ("12", "00", "01")))
               (Some "a.mp3") (Heard (Some "first")) Written Written).
Proof.
  apply (proj2 (proj2 (extraction_is_paced
                         (init "https://youtu.be/x" [] "out" ∅)
                         (mk_tick 100
                            (at_once (clock_at ("2025", "01", "01")
                                               ("12", "00", "01")))
                            (Some "a.mp3") (Heard (Some "first"))
                            Written Written)))).
  - vm_compute. discriminate.
  - reflexivity.
  - reflexivity.
Defined.

(** After [release] the stream holds no capture. *)
Lemma release_forgets_capture {capture : Type}
    (h : StreamUse.handle capture) (remove_fails : bool) :
  StreamUse.cap (StreamUse.release h remove_fails) = None.
Proof.
  unfold StreamUse.release, StreamUse.stop_video_capture.
  destruct (StreamUse.cap h) as [c|] eqn:Hcap;
    cbn [StreamUse.audio_file StreamUse.cap StreamUse.existing];
    destruct (StreamUse.audio_file h) as [f|]; cbn [StreamUse.cap];
    try (destruct (truthy f && bool_decide (f ∈ StreamUse.existing h));
         try destruct remove_fails; cbn [StreamUse.cap]);
    solve [reflexivity | exact Hcap].
Qed.

(** X19.  [stop] runs its shutdown once: the first call sets the stop
    flag, releases the capture, writes the final summary when there is a
    transcript and the write goes through, and writes the analysis
    history when that write goes through; a failing write is not raised,
    and when neither file can be opened the disk stays as it was.  Any
    later call, whatever the clock and the state of the disk, changes
    nothing. *)
Theorem stop_runs_once {capture : Type} (self : running capture)
    (remove_fails again_fails : bool) (now later : clock)
    (final_write again_write history_write other_write : write_result)
    (history_json other_json : string) :
  stop (stop self remove_fails now final_write history_json history_write)
       again_fails later again_write other_json other_write
  = stop self remove_fails now final_write history_json history_write
  /\ (stop_event self = false ->
      let stopped := stop self remove_fails now final_write history_json
                          history_write in
      stop_event stopped = true
      /\ StreamUse.cap (stream stopped) = None
      /\ (history_write = Written ->
          files (processor stopped)
          !! analysis_history_path (processor self) = Some history_json)
      /\ (full_transcript (processor self) <> "" ->
          final_write = Written ->
          files (processor stopped) !! final_path (processor self)
          = Some (summary (processor self) now))
      /\ (final_write = OpenFails -> history_write = OpenFails ->
          files (processor stopped) = files (processor self))
      /\ transcript_counter (processor stopped)
         = transcript_counter (processor self)
      /\ full_transcript (processor stopped)
         = full_transcript (processor self)).
Proof.
  split.
  - unfold stop. destruct (stop_event self) eqn:Hs; [now rewrite Hs|].
    reflexivity.
  - intros Hrun stopped. subst stopped. unfold stop. rewrite Hrun.
    cbn [stop_event stream processor].
    split; [reflexivity|].
    split; [apply release_forgets_capture|].
    assert (Hpaths : final_path (processor self)
                     <> analysis_history_path (processor self)).
    { unfold final_path, analysis_history_path.
      apply path_join_neq; [reflexivity | reflexivity | discriminate]. }
    assert (Hdir : forall w,
               analysis_history_path
                 (_save_final_transcript (processor self) now w)
               = analysis_history_path (processor self)).
    { intros w. unfold _save_final_transcript.
      destruct (truthy _); [|reflexivity]. now destruct w. }
    rewrite Hdir. unfold _save_final_transcript.
    split; [|split; [|split; [|split]]].
    + intros ->. unfold attempt_write at 1. unfold write_file. cbn [files].
      apply lookup_insert_eq.
    + intros Hne ->. apply truthy_nonempty in Hne. rewrite Hne.
      destruct history_write; unfold attempt_write, write_file;
        cbn [files];
        rewrite ?lookup_insert_ne
          by (intros E; apply Hpaths; symmetry; exact E);
        apply lookup_insert_eq.
    + intros -> ->. now destruct (truthy _).
    + destruct (truthy _); destruct final_write; destruct history_write;
        reflexivity.
    + destruct (truthy _); destruct final_write; destruct history_write;
        reflexivity.
Qed.
End ProcessorRunFacts.
